(** * WhatsApp auto-forwarder: routing table, classifier, delivery pipeline,
    session recovery and group-directory refresh.

  A shallow embedding of the server script (express + socket.io +
  whatsapp-web.js).  Every definition is a transcription of a fragment of
  that script; the line numbers in the comments refer to it.  The engine,
  the file system and the clock are outside the script; their answers are
  supplied to the embedded handlers as explicit oracle records, and the
  calls the script makes on them are recorded in the state. *)

From Stdlib Require Import ZArith Bool Lia Ascii.
From Stdlib Require String.
From stdpp Require Import base list strings gmap pretty.


(** ** JavaScript string methods used by the script *)

Module JsString.

(** [s.split(sep)] for a one-character separator: never empty, the empty
    string splits to one empty segment. *)
Fixpoint split (sep : ascii) (s : string) : list string :=
  match s with
  | EmptyString => [EmptyString]
  | String c r =>
      if Ascii.eqb c sep then EmptyString :: split sep r
      else match split sep r with
           | h :: t => String c h :: t
           | [] => [String c EmptyString]
           end
  end.

(** [s.startsWith(p)] *)
Definition startsWith (s p : string) : bool := String.prefix p s.

(** [s.includes(needle)] *)
Fixpoint includes (s needle : string) : bool :=
  String.prefix needle s
  || match s with
     | EmptyString => false
     | String _ r => includes r needle
     end.

(** A string in a boolean position: only the empty string is falsy. *)
Definition truthy (s : string) : bool :=
  match s with EmptyString => false | String _ _ => true end.

(** [o || d] where [o] is a string or [undefined]. *)
Definition or_default (o : option string) (d : string) : string :=
  match o with
  | Some s => if truthy s then s else d
  | None => d
  end.

(** Strings are sequences of bytes here and of UTF-16 code units in
    JavaScript.  For a string of 7-bit characters the two agree, so that
    positions and lengths mean the same. *)
Fixpoint is_ascii (s : string) : bool :=
  match s with
  | EmptyString => true
  | String c r => (nat_of_ascii c <? 128)%nat && is_ascii r
  end.

End JsString.

(** ** Routing table and its two mutations (lines 363-380) *)

Module Routing.

Definition GroupId := string.

(** A rule as it is stored.  The body of a POST is pushed without any
    validation (line 365), so [rule.targets] need not be an array:
    [targets_value] is [Some l] when it can be iterated (an array, or a
    string, yielding the elements [l]) and [None] when it cannot (missing,
    null, a number, an object). *)
Record Rule := Build_Rule {
  source : GroupId;
  targets_value : option (list GroupId);
  types : option (list string)
}.

(** The elements [rule.targets] yields; none when it cannot be iterated. *)
Definition targets (r : Rule) : list GroupId :=
  match targets_value r with
  | Some l => l
  | None => []
  end.

(** A rule with an array of targets, as the dashboard posts it:
    [{ source, targets: [...], types? }]. *)
Definition mkRule (source : GroupId) (targets : list GroupId)
    (types : option (list string)) : Rule :=
  Build_Rule source (Some targets) types.

(** [config.rules] in memory together with the documents handed to
    [fs.writeFileSync(CONFIG_FILE, ...)], oldest first. *)
Record Server := mkServer {
  rules : list Rule;
  persisted : list (list Rule)
}.

Inductive Response :=
| Success (config : list Rule)          (* res.json({ success: true, config }) *)
| Failure (status : Z) (error : string). (* res.status(n).json({ error }) *)

Definition writeConfig (s : Server) : Server :=
  {| rules := rules s; persisted := persisted s ++ [rules s] |}.

(** POST /api/config/rules: push, persist, answer with the whole table. *)
Definition post_rule (newRule : Rule) (s : Server) : Server * Response :=
  let s1 := {| rules := rules s ++ [newRule]; persisted := persisted s |} in
  let s2 := writeConfig s1 in
  (s2, Success (rules s2)).

(** DELETE /api/config/rules/:index.  [index] is the value of
    [parseInt(req.params.index)]: [None] stands for NaN, for which both
    comparisons of the guard are false. *)
Definition in_range (index : option Z) (s : Server) : bool :=
  match index with
  | Some i => (0 <=? i)%Z && (i <? Z.of_nat (length (rules s)))%Z
  | None => false
  end.

Definition delete_rule (index : option Z) (s : Server) : Server * Response :=
  match index with
  | Some i =>
      if (0 <=? i)%Z && (i <? Z.of_nat (length (rules s)))%Z then
        (* config.rules.splice(index, 1) *)
        let s1 := {| rules := delete (Z.to_nat i) (rules s);
                     persisted := persisted s |} in
        let s2 := writeConfig s1 in
        (s2, Success (rules s2))
      else (s, Failure 400 "Invalid index")
  | None => (s, Failure 400 "Invalid index")
  end.

(** [match(sourceId)]: the filter at line 217. *)
Definition validRules (chatId : GroupId) (rs : list Rule) : list Rule :=
  filter (fun r => source r = chatId) rs.

End Routing.

(** ** Thrown values, outcomes of calls, and the state-and-exception monad
    in which the handlers are written *)

Module Js.

(** A thrown value: an [Error] whose [message] may be missing. *)
Record Error := mkError { message : option string }.

Definition TypeError (m : string) : Error := mkError (Some m).

Inductive Outcome (A : Type) :=
| Returns (a : A)
| Throws (e : Error).
Arguments Returns {A} a.
Arguments Throws {A} e.

(** A computation over a mutable state [St]: effects made before a throw
    stay in the state, as in JavaScript. *)
Definition M (St A : Type) : Type := St -> Outcome A * St.

#[export] Instance M_ret St : MRet (M St) := fun A a w => (Returns a, w).

#[export] Instance M_bind St : MBind (M St) := fun A B k m w =>
  match m w with
  | (Returns a, w') => k a w'
  | (Throws e, w') => (Throws e, w')
  end.

Definition throw {St A} (e : Error) : M St A := fun w => (Throws e, w).

(** [try { body } catch (e) { handler e }] *)
Definition try_catch {St A} (body : M St A) (handler : Error -> M St A) : M St A :=
  fun w => match body w with
           | (Throws e, w') => handler e w'
           | r => r
           end.

Definition modify {St} (f : St -> St) : M St unit := fun w => (Returns tt, f w).

Definition gets {St A} (f : St -> A) : M St A := fun w => (Returns (f w), w).

(** The answer of an external call, given by the oracle. *)
Definition lift {St A} (o : Outcome A) : M St A := fun w => (o, w).

(** [for (const x of xs) body x] *)
Fixpoint for_of {St A} (xs : list A) (body : A -> M St unit) : M St unit :=
  match xs with
  | [] => mret tt
  | x :: rest => body x ;; for_of rest body
  end.

End Js.

(** ** Extension of the temporary file (lines 256-273) *)

Module Ext.
Import Js JsString.

Definition mimeMap : list (string * string) :=
  [ ("video/mp4", "mp4");
    ("video/3gpp", "3gp");
    ("video/quicktime", "mov");
    ("video/x-matroska", "mkv");
    ("image/jpeg", "jpg");
    ("image/png", "png");
    ("image/webp", "webp");
    ("image/gif", "gif");
    ("audio/ogg", "ogg");
    ("audio/mp4", "m4a");
    ("audio/mpeg", "mp3") ].

Fixpoint own (key : string) (table : list (string * string)) : option string :=
  match table with
  | [] => None
  | (k, v) :: rest => if String.eqb key k then Some v else own key rest
  end.

(** [mimeMap] is an object literal, so a key that is not its own is looked
    up on [Object.prototype]; every member found there is a function or an
    object, hence truthy. *)
Definition objectPrototype : list string :=
  [ "constructor"; "__defineGetter__"; "__defineSetter__"; "hasOwnProperty";
    "__lookupGetter__"; "__lookupSetter__"; "isPrototypeOf";
    "propertyIsEnumerable"; "toString"; "valueOf"; "__proto__";
    "toLocaleString" ].

Inductive Property :=
| Own (v : string)
| Inherited (key : string)
| Undefined.

Definition get (key : string) : Property :=
  match own key mimeMap with
  | Some v => Own v
  | None => if bool_decide (key ∈ objectPrototype) then Inherited key else Undefined
  end.

(** The text the template literal at line 274 produces for an inherited
    member. *)
Definition inherited_text (key : string) : string :=
  if String.eqb key "__proto__" then "[object Object]"
  else if String.eqb key "constructor" then "function Object() { [native code] }"
  else "function " +:+ key +:+ "() { [native code] }".

(** [mime.split(';')[0]]: index 0 of a split always exists. *)
Definition first_segment (sep : ascii) (s : string) : string :=
  match split sep s with
  | h :: _ => h
  | [] => EmptyString
  end.

(** [mimeMap[mime.split(';')[0]] || mime.split('/')[1].split(';')[0] || 'bin'];
    the result is the text interpolated into the file name.  Calling
    [split] on the [undefined] that index 1 yields when [mime] has no slash
    throws a TypeError. *)
Definition ext_of (mime : string) : Outcome string :=
  let fromTable :=
    match get (first_segment ";" mime) with
    | Own v => if truthy v then Some v else None
    | Inherited key => Some (inherited_text key)
    | Undefined => None
    end in
  match fromTable with
  | Some e => Returns e
  | None =>
      match split "/" mime !! 1%nat with
      | None => Throws (TypeError "Cannot read properties of undefined (reading 'split')")
      | Some sub =>
          let e := first_segment ";" sub in
          if truthy e then Returns e else Returns "bin"
      end
  end.

End Ext.

(** ** Message classifier (lines 225-233) *)

Module Classifier.
Import JsString.

(** [msg._data.mimetype || ''] *)
Definition mime_of (mimetype : option string) : string := or_default mimetype "".

Definition isMedia (type mime : string) : bool :=
  let isMedia := bool_decide (type ∈ ["image"; "video"; "gif"]) in
  if String.eqb type "document" then
    if startsWith mime "image/" || startsWith mime "video/" then true else isMedia
  else isMedia.

End Classifier.

(** ** The [message_create] handler (lines 205-350) *)

Module Delivery.
Import Js JsString Routing.

Record Chat := mkChat {
  chat_id : GroupId;       (* chat.id._serialized *)
  chat_name : string;
  isGroup : bool
}.

Record Message := mkMessage {
  msg_id : string;                 (* msg.id._serialized *)
  msg_type : string;               (* chat, image, video, document, ptt, ... *)
  msg_mimetype : option string;    (* msg._data.mimetype *)
  msg_body : option string;
  hasMedia : bool
}.

(** What [msg.downloadMedia()] resolves to when it is not [undefined]. *)
Record Media := mkMedia {
  data : option string;            (* base64 text *)
  mimetype : option string
}.

Record SendOptions := mkSendOptions {
  caption : string;
  sendAudioAsVoice : bool;
  sendMediaAsDocument : bool
}.

(** Calls made on the engine, in order; a call that throws is recorded too. *)
Inductive EngineCall :=
| DownloadMedia
| SendMessage (target : GroupId) (filename mime : string) (options : SendOptions)
| Forward (target : GroupId).

(** The lines sent with [io.emit('log', ...)], one constructor per template,
    carrying the interpolated values. *)
Inductive LogLine :=
| DebugSaw (type chatName : string)                 (* line 214 *)
| Detected (type mime chatName : string)            (* line 237 *)
| Processing (type : string)                        (* line 244 *)
| Downloading                                       (* line 252 *)
| MediaCached (bytes : N)                           (* line 304 *)
| SentNative                                        (* line 308 *)
| DownloadFailed                                    (* line 316 *)
| NativeFailed (message : option string)            (* line 320 *)
| SwitchingToForward                                (* line 326 *)
| Forwarded                                         (* line 328 *)
| ErrorSending (type : string) (message : option string)  (* line 333 *)
| Skipped (type : string).                          (* line 343 *)

(** [console.log] / [console.error] lines. *)
Inductive ConsoleLine :=
| DebugMsg (chatName type : string)                 (* line 213 *)
| DetectedInSource (chatName type : string)         (* line 222 *)
| DocumentIsMedia (mime : string)                   (* line 231 *)
| StartingMedia (id : string)                       (* line 245 *)
| Saved (filename : string) (bytes : N) (mime : string)   (* line 286 *)
| DownloadUndefined                                 (* line 315 *)
| DownloadSendError (e : Error)                     (* line 319 *)
| TransmissionError (e : Error)                     (* line 332 *)
| SkippingType (type mime : string)                 (* line 338 *)
| ErrorProcessing (e : Error).                      (* line 348 *)

(** The answers of the outside world during one pass through the body of
    the per-target loop. *)
Record AttemptEnv := mkAttemptEnv {
  download : Outcome (option Media);   (* await msg.downloadMedia() *)
  now : Z;                             (* Date.now() *)
  mkdir : Outcome unit;                (* fs.mkdirSync(publicDir), when the directory is missing *)
  write : Outcome unit;                (* fs.writeFileSync(filePath, media.data, 'base64') *)
  written : N;                         (* bytes the base64 text decodes to *)
  send : Outcome unit;                 (* await client.sendMessage(...) *)
  forward : Outcome unit               (* await msg.forward(targetId) *)
}.

Record World := mkWorld {
  files : gmap string N;               (* path ↦ size in bytes *)
  publicDir_exists : bool;
  timers : list (Z * string);          (* pending cleanups: delay, file path *)
  sink : list LogLine;                 (* Event Sink *)
  console : list ConsoleLine;
  calls : list EngineCall;
  attempted : list GroupId             (* targets whose try block (line 243) was entered *)
}.

Definition emit (l : LogLine) : M World unit :=
  modify (fun w => mkWorld (files w) (publicDir_exists w) (timers w) (sink w ++ [l])
                           (console w) (calls w) (attempted w)).

Definition log (l : ConsoleLine) : M World unit :=
  modify (fun w => mkWorld (files w) (publicDir_exists w) (timers w) (sink w)
                           (console w ++ [l]) (calls w) (attempted w)).

Definition call (c : EngineCall) : M World unit :=
  modify (fun w => mkWorld (files w) (publicDir_exists w) (timers w) (sink w)
                           (console w) (calls w ++ [c]) (attempted w)).

Definition enter_attempt (targetId : GroupId) : M World unit :=
  modify (fun w => mkWorld (files w) (publicDir_exists w) (timers w) (sink w)
                           (console w) (calls w) (attempted w ++ [targetId])).

(** [if (!fs.existsSync(publicDir)) fs.mkdirSync(publicDir)]: the directory
    is made only when it is missing, and making it may throw. *)
Definition ensure_publicDir (env : AttemptEnv) : M World unit :=
  present ← gets publicDir_exists ;
  if (present : bool) then mret tt
  else
    lift (mkdir env) ;;
    modify (fun w => mkWorld (files w) true (timers w) (sink w)
                             (console w) (calls w) (attempted w)).

(** [fs.writeFileSync(path, media.data, 'base64')]: a write the file system
    refuses (a name it does not accept, no space, no permission) throws and
    leaves no file. *)
Definition writeFileSync (env : AttemptEnv) (path : string) : M World unit :=
  lift (write env) ;;
  modify (fun w => mkWorld (<[path := written env]> (files w)) (publicDir_exists w)
                           (timers w) (sink w) (console w) (calls w) (attempted w)).

(** [fs.statSync(path).size] *)
Definition statSync (path : string) : M World N :=
  fun w => match files w !! path with
           | Some n => (Returns n, w)
           | None => (Throws (mkError (Some "ENOENT: no such file or directory")), w)
           end.

(** [setTimeout(() => { try { if (fs.existsSync(p)) fs.unlinkSync(p) } catch (e) { } }, delay)] *)
Definition setTimeout_unlink (path : string) (delay : Z) : M World unit :=
  modify (fun w => mkWorld (files w) (publicDir_exists w) (timers w ++ [(delay, path)])
                           (sink w) (console w) (calls w) (attempted w)).

(** The state once every pending cleanup timer has fired. *)
Definition fire_timers (w : World) : World :=
  mkWorld (foldl (fun m t => base.delete (snd t) m) (files w) (timers w))
          (publicDir_exists w) [] (sink w) (console w) (calls w) (attempted w).

Definition publicDir : string := "public".

Definition filename_of (stamp : Z) (ext : string) : string :=
  "temp_" +:+ pretty stamp +:+ "." +:+ ext.

Definition filePath_of (filename : string) : string := publicDir +:+ "/" +:+ filename.

(** [media && media.data] *)
Definition has_data (media : option Media) : option Media :=
  match media with
  | Some m => match data m with
              | Some d => if truthy d then Some m else None
              | None => None
              end
  | None => None
  end.

(** Stage 1, the inner [try] of lines 251-321; the result is the value of
    [sentAsMedia] when the statement is left.  The engine calls, the
    extension mapping, making the directory and writing the file may throw;
    [fs.statSync] and [MessageMedia.fromFilePath], which only read the file
    just written, are taken to succeed. *)
Definition native_upload (env : AttemptEnv) (msg : Message) (type : string)
    (targetId : GroupId) : M World bool :=
  try_catch
    (emit Downloading ;;
     call DownloadMedia ;;
     media ← lift (download env) ;
     match has_data media with
     | Some m =>
         let mime := or_default (mimetype m) "application/octet-stream" in
         ext ← lift (Ext.ext_of mime) ;
         let filename := filename_of (now env) ext in
         ensure_publicDir env ;;
         let filePath := filePath_of filename in
         writeFileSync env filePath ;;
         size ← statSync filePath ;
         log (Saved filename size mime) ;;
         (if (size =? 0)%N then throw (mkError (Some "File empty after write")) else mret tt) ;;
         let sendOptions :=
           mkSendOptions (or_default (msg_body msg) "")
                         (String.eqb type "ptt" || String.eqb type "audio")
                         false in
         emit (MediaCached size) ;;
         call (SendMessage targetId filename mime sendOptions) ;;
         lift (send env) ;;
         emit SentNative ;;
         setTimeout_unlink filePath 30000 ;;
         mret true
     | None =>
         log DownloadUndefined ;;
         emit DownloadFailed ;;
         mret false
     end)
    (fun downloadErr =>
       log (DownloadSendError downloadErr) ;;
       emit (NativeFailed (message downloadErr)) ;;
       mret false).

(** The body of the per-target loop, lines 243-334. *)
Definition deliver (env : AttemptEnv) (msg : Message) (type : string)
    (targetId : GroupId) : M World unit :=
  try_catch
    (emit (Processing type) ;;
     log (StartingMedia (msg_id msg)) ;;
     sentAsMedia ← (if hasMedia msg then native_upload env msg type targetId
                    else mret false) ;
     if negb sentAsMedia then
       emit SwitchingToForward ;;
       call (Forward targetId) ;;
       lift (forward env) ;;
       emit Forwarded
     else mret tt)
    (fun e =>
       log (TransmissionError e) ;;
       emit (ErrorSending type (message e))).

(** The oracle answers the n-th pass through the loop body with [oracle n]. *)
Definition next_attempt (oracle : nat -> AttemptEnv) : M World AttemptEnv :=
  gets (fun w => oracle (length (attempted w))).

(** The head of [for (const targetId of rule.targets)] at line 240: a value
    that cannot be iterated throws a TypeError there, outside the [try] of
    line 243. *)
Definition iterate_targets (rule : Rule) : M World (list GroupId) :=
  match targets_value rule with
  | Some ts => mret ts
  | None => throw (TypeError "rule.targets is not iterable")
  end.

(** Lines 239-336. *)
Definition deliver_all (oracle : nat -> AttemptEnv) (chat : Chat) (msg : Message)
    (type : string) (validRules : list Rule) : M World unit :=
  for_of validRules (fun rule =>
    ts ← iterate_targets rule ;
    for_of ts (fun targetId =>
      if String.eqb targetId (chat_id chat) then mret tt   (* continue *)
      else
        env ← next_attempt oracle ;
        enter_attempt targetId ;;
        deliver env msg type targetId)).

(** The whole handler. [getChat] is the outcome of [await msg.getChat()]. *)
Definition on_message_create (oracle : nat -> AttemptEnv) (rules : list Rule)
    (getChat : Outcome Chat) (msg : Message) : M World unit :=
  try_catch
    (chat ← lift getChat ;
     if negb (isGroup chat) then mret tt
     else
       log (DebugMsg (chat_name chat) (msg_type msg)) ;;
       emit (DebugSaw (msg_type msg) (chat_name chat)) ;;
       let validRules := Routing.validRules (chat_id chat) rules in
       if (0 <? length validRules)%nat then
         let type := msg_type msg in
         log (DetectedInSource (chat_name chat) type) ;;
         let mime := Classifier.mime_of (msg_mimetype msg) in
         (if String.eqb type "document"
             && (startsWith mime "image/" || startsWith mime "video/")
          then log (DocumentIsMedia mime) else mret tt) ;;
         if Classifier.isMedia type mime then
           emit (Detected type mime (chat_name chat)) ;;
           deliver_all oracle chat msg type validRules
         else
           log (SkippingType type mime) ;;
           if String.eqb type "chat" then mret tt
           else emit (Skipped type)
       else mret tt)
    (fun error => log (ErrorProcessing error)).

(** The (rule, target) pairs the loops visit without [continue]. *)
Definition pairs (chatId : GroupId) (rules : list Rule) : list GroupId :=
  flat_map (fun r => filter (fun t => t <> chatId) (targets r))
           (Routing.validRules chatId rules).

(** Whether [rule.targets] can be iterated. *)
Definition iterable (r : Rule) : bool :=
  match targets_value r with
  | Some _ => true
  | None => false
  end.

(** The rules up to the first one whose targets cannot be iterated. *)
Fixpoint iterable_prefix (rs : list Rule) : list Rule :=
  match rs with
  | [] => []
  | r :: rest =>
      match targets_value r with
      | Some _ => r :: iterable_prefix rest
      | None => []
      end
  end.

(** The (rule, target) pairs the loops get to: those of the matching rules
    that come before the first matching rule whose targets cannot be
    iterated. *)
Definition visited (chatId : GroupId) (rules : list Rule) : list GroupId :=
  flat_map (fun r => filter (fun t => t <> chatId) (targets r))
           (iterable_prefix (Routing.validRules chatId rules)).

(** The file of the attempt gets onto the disk: the directory is there or
    can be made, and the write is accepted. *)
Definition saved (env : AttemptEnv) (w : World) : Prop :=
  (publicDir_exists w = true \/ mkdir env = Returns tt) /\ write env = Returns tt.

Definition initial : World := mkWorld ∅ true [] [] [] [] [].

(** Among the calls [cs] there is one that hands something to [targetId]. *)
Definition reaches (targetId : GroupId) (cs : list EngineCall) : Prop :=
  Forward targetId ∈ cs
  \/ exists filename mime options, SendMessage targetId filename mime options ∈ cs.

(** Concrete inputs used to run the handler. *)
Definition png : Media := mkMedia (Some "iVBORw0KGgo=") (Some "image/png").

Definition photo : Message := mkMessage "true_A@g.us_3EB0" "image" (Some "image/png") None true.

Definition boom : Error := mkError (Some "Evaluation failed: t").

Definition all_fine : AttemptEnv :=
  mkAttemptEnv (Returns (Some png)) 1700000000000 (Returns tt) (Returns tt) 8
               (Returns tt) (Returns tt).

Definition send_throws : AttemptEnv :=
  mkAttemptEnv (Returns (Some png)) 1700000000000 (Returns tt) (Returns tt) 8
               (Throws boom) (Returns tt).

Definition all_throw : AttemptEnv :=
  mkAttemptEnv (Throws boom) 1700000000000 (Throws boom) (Throws boom) 8
               (Throws boom) (Throws boom).

Definition empty_file : AttemptEnv :=
  mkAttemptEnv (Returns (Some png)) 1700000000000 (Returns tt) (Returns tt) 0
               (Returns tt) (Returns tt).


(** A stored rule without a [targets] array. *)
Definition no_targets (source : GroupId) : Rule := Build_Rule source None None.

End Delivery.

(** ** Session start-up and self-repair: [initializeClient] (lines 70-120) *)

Module Lifecycle.
Import Js JsString.

Inductive Dir := AuthDir | CacheDir.   (* .wwebjs_auth, .wwebjs_cache *)

(** What a timer runs. *)
Inductive Task :=
| InitializeClient      (* setTimeout(initializeClient, ...) *)
| Cleanup.              (* the arrow function of lines 95-113 *)

Inductive Call :=
| Initialize            (* client.initialize() *)
| Destroy               (* client.destroy() *)
| ExistsSync (d : Dir)
| RmSync (d : Dir).     (* fs.rmSync(d, { recursive: true, force: true }) *)

Inductive Event :=
| Status (label : string)       (* io.emit('status', ...) *)
| Launching                     (* line 72 *)
| CriticalCorrupted             (* line 85 *)
| SessionReset                  (* line 106 *)
| CleanupFailed                 (* line 109 *)
| InitFailedRetrying            (* line 117 *)
| FromHandler (event : string). (* any other io.emit of the handlers of lines 122-202 *)

(** The answers of the engine and of the file system during one task.
    While an awaited engine call is pending, the handlers of the engine
    events (lines 122-202) can run: [during_initialize] and
    [during_destroy] are the events they send to the dashboard meanwhile,
    in order; a [Status] among them is an [updateStatus] call. *)
Record Env := Build_Env {
  initialize : Outcome unit;
  during_initialize : list Event;
  destroy : Outcome unit;
  during_destroy : list Event;
  rmSync : Dir -> Outcome unit
}.

(** An environment in which no engine event arrives during the awaits. *)
Definition mkEnv (initialize destroy : Outcome unit) (rmSync : Dir -> Outcome unit) : Env :=
  Build_Env initialize [] destroy [] rmSync.

Record State := mkState {
  currentStatus : string;
  sink : list Event;
  auth_exists : bool;
  cache_exists : bool;
  calls : list Call;
  clock : Z;                      (* milliseconds *)
  timers : list (Z * Task)        (* due time, task; earliest first *)
}.

Definition emit (e : Event) : M State unit :=
  modify (fun s => mkState (currentStatus s) (sink s ++ [e]) (auth_exists s)
                           (cache_exists s) (calls s) (clock s) (timers s)).

Definition updateStatus (status : string) : M State unit :=
  modify (fun s => mkState status (sink s) (auth_exists s)
                           (cache_exists s) (calls s) (clock s) (timers s)) ;;
  emit (Status status).

Definition call (c : Call) : M State unit :=
  modify (fun s => mkState (currentStatus s) (sink s) (auth_exists s)
                           (cache_exists s) (calls s ++ [c]) (clock s) (timers s)).

(** What the event handlers do to the dashboard while a call is pending. *)
Definition meanwhile (events : list Event) : M State unit :=
  for_of events (fun ev =>
    match ev with
    | Status label => updateStatus label
    | _ => emit ev
    end).

(** [await c()]: the call is made, handlers run while it is pending, then
    it returns or throws. *)
Arguments meanwhile : simpl never.

Definition await (c : Call) (events : list Event) (answer : Outcome unit) : M State unit :=
  call c ;;
  meanwhile events ;;
  lift answer.

(** The status after the handlers have run: the label of the last [Status]
    among their events, if any. *)
Definition status_after (events : list Event) (status : string) : string :=
  fold_left (fun st ev => match ev with Status label => label | _ => st end) events status.

Fixpoint insert_timer (t : Z * Task) (q : list (Z * Task)) : list (Z * Task) :=
  match q with
  | [] => [t]
  | u :: rest => if (fst t <? fst u)%Z then t :: q else u :: insert_timer t rest
  end.

Definition setTimeout (task : Task) (delay : Z) : M State unit :=
  modify (fun s => mkState (currentStatus s) (sink s) (auth_exists s) (cache_exists s)
                           (calls s) (clock s)
                           (insert_timer (clock s + delay, task)%Z (timers s))).

Definition exists_dir (d : Dir) (s : State) : bool :=
  match d with AuthDir => auth_exists s | CacheDir => cache_exists s end.

Definition existsSync (d : Dir) : M State bool :=
  call (ExistsSync d) ;; gets (exists_dir d).

Definition remove_dir (d : Dir) : M State unit :=
  modify (fun s => mkState (currentStatus s) (sink s)
                           (match d with AuthDir => false | CacheDir => auth_exists s end)
                           (match d with AuthDir => cache_exists s | CacheDir => false end)
                           (calls s) (clock s) (timers s)).

(** A removal that throws leaves the directory in place. *)
Definition rm (env : Env) (d : Dir) : M State unit :=
  call (RmSync d) ;;
  lift (rmSync env d) ;;
  remove_dir d.

Definition signatures : list string :=
  [ "Execution context was destroyed"; "Protocol error"; "Evaluation failed" ].

(** [errorMsg.includes(...) || ...] of lines 81-83. *)
Definition is_corruption (errorMsg : string) : bool :=
  includes errorMsg "Execution context was destroyed"
  || includes errorMsg "Protocol error"
  || includes errorMsg "Evaluation failed".

(** [if (fs.existsSync(d)) { fs.rmSync(d, ...) }] *)
Definition rm_if_exists (env : Env) (d : Dir) : M State unit :=
  present ← existsSync d ;
  if (present : bool) then rm env d else mret tt.

(** Lines 95-113. *)
Definition cleanup (env : Env) : M State unit :=
  try_catch
    (rm_if_exists env AuthDir ;;
     rm_if_exists env CacheDir ;;
     emit SessionReset)
    (fun rmErr => emit CleanupFailed) ;;
  setTimeout InitializeClient 3000.

(** Lines 70-120.  The two awaits (lines 74 and 89) are the points at which
    engine event handlers can run in between. *)
Definition initializeClient (env : Env) : M State unit :=
  updateStatus "Initializing..." ;;
  emit Launching ;;
  try_catch
    (await Initialize (during_initialize env) (initialize env))
    (fun e =>
       updateStatus "Init Error" ;;
       let errorMsg := or_default (message e) "" in
       if is_corruption errorMsg then
         emit CriticalCorrupted ;;
         try_catch (await Destroy (during_destroy env) (destroy env)) (fun err => mret tt) ;;
         setTimeout Cleanup 1000
       else
         emit InitFailedRetrying ;;
         setTimeout InitializeClient 5000).

Definition run_task (t : Task) (env : Env) : M State unit :=
  match t with
  | InitializeClient => initializeClient env
  | Cleanup => cleanup env
  end.

(** The event loop: the earliest timer fires, at its due time. *)
Definition fire_next (env : Env) (s : State) : option (Task * (Outcome unit * State)) :=
  match timers s with
  | [] => None
  | (due, task) :: rest =>
      let s' := mkState (currentStatus s) (sink s) (auth_exists s) (cache_exists s)
                        (calls s) (Z.max (clock s) due) rest in
      Some (task, run_task task env s')
  end.

(** The file-system calls of [cleanup], given which directories exist and
    whether removing the auth directory throws. *)
Definition cleanup_calls (auth cache auth_rm_throws : bool) : list Call :=
  ExistsSync AuthDir
  :: (if auth then [RmSync AuthDir] else [])
  ++ (if auth && auth_rm_throws then []
      else ExistsSync CacheDir :: (if cache then [RmSync CacheDir] else [])).

Definition throws {A} (o : Outcome A) : bool :=
  match o with Returns _ => false | Throws _ => true end.

(** One of the removals that [cleanup] gets to throws. *)
Definition removal_throws (env : Env) (s : State) : bool :=
  (auth_exists s && throws (rmSync env AuthDir))
  || (cache_exists s && throws (rmSync env CacheDir)).

(** Concrete inputs used to run the controller. *)
Definition protocol_error : Error :=
  mkError (Some "Protocol error (Runtime.callFunctionOn): Session closed.").

Definition ebusy : Error := mkError (Some "EBUSY: resource busy or locked, rmdir").

Definition corrupted : Env := mkEnv (Throws protocol_error) (Throws protocol_error) (fun _ => Returns tt).

Definition auth_locked : Env :=
  mkEnv (Returns tt) (Returns tt)
        (fun d => match d with AuthDir => Throws ebusy | CacheDir => Returns tt end).

Definition fresh : State := mkState "Initializing..." [] true true [] 0 [].

End Lifecycle.

(** ** Group directory refresh after [ready]: [fetchGroups] (lines 141-173) *)

Module Directory.
Import Js.

Record ChatInfo := mkChatInfo {
  isGroup : bool;
  chat_id : string;        (* chat.id._serialized *)
  chat_name : string
}.

Record GroupRecord := mkGroup { id : string; name : string }.

Inductive Event :=
| Groups (snapshot : list GroupRecord)     (* io.emit('groups', ...) *)
| Loaded (count : nat)                     (* line 155 *)
| Syncing (scanned : nat)                  (* line 159 *)
| GiveUp                                   (* line 163 *)
| ErrorReading.                            (* line 168 *)

Record State := mkState {
  attempts : nat;
  availableGroups : list GroupRecord;
  sink : list Event;
  fetches : nat;               (* calls of client.getChats() *)
  timers : list Z              (* delays of the pending fetchGroups timers *)
}.

Definition emit (e : Event) : M State unit :=
  modify (fun s => mkState (attempts s) (availableGroups s) (sink s ++ [e])
                           (fetches s) (timers s)).

Definition setTimeout_fetchGroups (delay : Z) : M State unit :=
  modify (fun s => mkState (attempts s) (availableGroups s) (sink s)
                           (fetches s) (timers s ++ [delay])).

Definition getChats (answer : Outcome (list ChatInfo)) : M State (list ChatInfo) :=
  modify (fun s => mkState (attempts s) (availableGroups s) (sink s)
                           (S (fetches s)) (timers s)) ;;
  lift answer.

Definition groups_of (chats : list ChatInfo) : list GroupRecord :=
  map (fun chat => mkGroup (chat_id chat) (chat_name chat))
      (filter (fun chat => isGroup chat = true) chats).

(** Lines 143-171; [answer] is what [client.getChats()] does this time. *)
Definition fetchGroups (answer : Outcome (list ChatInfo)) : M State unit :=
  modify (fun s => mkState (S (attempts s)) (availableGroups s) (sink s)
                           (fetches s) (timers s)) ;;
  try_catch
    (chats ← getChats answer ;
     let groups := groups_of chats in
     n ← gets attempts ;
     if (0 <? length groups)%nat then
       modify (fun s => mkState (attempts s) groups (sink s) (fetches s) (timers s)) ;;
       emit (Groups groups) ;;
       emit (Loaded (length groups)) ;;
       if (n <? 5)%nat then setTimeout_fetchGroups 5000 else mret tt
     else
       emit (Syncing (length chats)) ;;
       if (n <? 20)%nat then setTimeout_fetchGroups 5000
       else emit GiveUp)
    (fun e =>
       emit ErrorReading ;;
       n ← gets attempts ;
       if (n <? 20)%nat then setTimeout_fetchGroups 5000 else mret tt).

(** State in which the [ready] handler calls [fetchGroups] for the first
    time: [let attempts = 0]. *)
Definition on_ready (groups : list GroupRecord) (sink : list Event) : State :=
  mkState 0 groups sink 0 [].

(** Runs the loop: the first call, then one call per timer that fires.  The
    n-th call of [getChats] is answered by [oracle n].  [fuel] bounds the
    number of calls made. *)
Fixpoint run (oracle : nat -> Outcome (list ChatInfo)) (fuel : nat) (s : State)
    : Outcome unit * State :=
  match fuel with
  | O => (Returns tt, s)
  | S fuel' =>
      match fetchGroups (oracle (S (attempts s))) s with
      | (Returns _, s') =>
          match timers s' with
          | [] => (Returns tt, s')
          | _ :: rest =>
              run oracle fuel'
                  (mkState (attempts s') (availableGroups s') (sink s') (fetches s') rest)
          end
      | (Throws e, s') => (Throws e, s')
      end
  end.

(** What an oracle may answer at every call. *)
Definition finds_groups (answer : Outcome (list ChatInfo)) : Prop :=
  exists chats, answer = Returns chats /\ groups_of chats <> [].

Definition finds_nothing (answer : Outcome (list ChatInfo)) : Prop :=
  match answer with
  | Returns chats => groups_of chats = []
  | Throws _ => True
  end.

End Directory.
(** ** Sequences of requests to the two mutating routes *)

Module Api.
Import Routing.

Inductive Request :=
| PostRule (newRule : Rule)             (* POST /api/config/rules *)
| DeleteRule (index : option Z).        (* DELETE /api/config/rules/:index *)

Definition handle (req : Request) (s : Server) : Server * Response :=
  match req with
  | PostRule newRule => post_rule newRule s
  | DeleteRule index => delete_rule index s
  end.

(** The requests are served one after the other. *)
Fixpoint handle_all (reqs : list Request) (s : Server) : Server * list Response :=
  match reqs with
  | [] => (s, [])
  | req :: rest =>
      let (s1, answer) := handle req s in
      let (s2, answers) := handle_all rest s1 in
      (s2, answer :: answers)
  end.

Definition is_success (r : Response) : bool :=
  match r with Success _ => true | Failure _ _ => false end.

(** The document written last is the table in memory. *)
Definition synced (s : Server) : Prop := last (persisted s) = Some (rules s).

End Api.

(** ** Manual refresh: POST /api/groups/refresh (lines 382-399) *)

Module Refresh.
Import Js Directory.

Inductive Response :=
| Refreshed (count : nat)                              (* { success: true, count } *)
| NotReady                                             (* { success: false, message: 'Client not ready' } *)
| Failed (status : Z) (error : option string).         (* res.status(500).json({ error: e.message }) *)

(** [connected] is the truth value of [client && client.info]; [answer] is
    what [client.getChats()] does. *)
Definition refresh (connected : bool) (answer : Outcome (list ChatInfo))
    : M State Response :=
  if connected then
    try_catch
      (chats ← getChats answer ;
       modify (fun s => mkState (attempts s) (groups_of chats) (sink s)
                                (fetches s) (timers s)) ;;
       emit (Groups (groups_of chats)) ;;
       mret (Refreshed (length (groups_of chats))))
      (fun e => mret (Failed 500 (message e)))
  else mret NotReady.

End Refresh.

(** ** Engine events other than messages (lines 122-202) and new dashboard
    connections (lines 54-60) *)

Module Session.
Import Js.

Inductive Event :=
| Status (label : string)               (* io.emit('status', ...) *)
| Qr (dataUrl : string)                 (* io.emit('qr', url) *)
| Ready                                 (* io.emit('ready') *)
| ScanPrompt                            (* line 128 *)
| FetchingGroups                        (* line 139 *)
| AuthenticatedNotice                   (* line 179 *)
| AuthFailedNotice (msg : string)       (* line 185 *)
| DisconnectedNotice (reason : string). (* line 191 *)

Record State := mkState {
  currentStatus : string;
  isReconnecting : bool;
  sink : list Event;
  destroys : nat;          (* calls of client.destroy() *)
  reinits : list Z;        (* delays of the armed setTimeout(initializeClient, ...) *)
  loops : nat              (* fetchGroups loops started *)
}.

(** The handler bodies that run, with the answers they get.
    [QrChallenge dataUrl] is the callback of [qrcode.toDataURL]
    (lines 124-130) running with the result [dataUrl]: the [qr] event itself
    only logs to the console and starts the conversion, so the place of a
    [QrChallenge] in a list of signals is the moment its callback runs,
    after the handlers of the events that arrived in the meantime.
    [destroy] is what [client.destroy()] does. *)
Inductive Signal :=
| QrChallenge (dataUrl : Outcome string)
| ReadySignal
| Authenticated
| AuthFailure (msg : string)
| Disconnected (reason : string) (destroy : Outcome unit).

Definition emit (e : Event) : M State unit :=
  modify (fun s => mkState (currentStatus s) (isReconnecting s) (sink s ++ [e])
                           (destroys s) (reinits s) (loops s)).

(** Lines 65-68. *)
Definition updateStatus (status : string) : M State unit :=
  modify (fun s => mkState status (isReconnecting s) (sink s)
                           (destroys s) (reinits s) (loops s)) ;;
  emit (Status status).

Definition set_reconnecting (b : bool) : M State unit :=
  modify (fun s => mkState (currentStatus s) b (sink s)
                           (destroys s) (reinits s) (loops s)).

Definition call_destroy (answer : Outcome unit) : M State unit :=
  modify (fun s => mkState (currentStatus s) (isReconnecting s) (sink s)
                           (S (destroys s)) (reinits s) (loops s)) ;;
  lift answer.

Definition setTimeout_initializeClient (delay : Z) : M State unit :=
  modify (fun s => mkState (currentStatus s) (isReconnecting s) (sink s)
                           (destroys s) (reinits s ++ [delay]) (loops s)).

(** [let attempts = 0; ...; fetchGroups()] of lines 142-173: every [ready]
    starts a loop of its own. *)
Definition start_fetch_loop : M State unit :=
  modify (fun s => mkState (currentStatus s) (isReconnecting s) (sink s)
                           (destroys s) (reinits s) (S (loops s))).

(** The callback of lines 124-130, run once the data URL is there or the
    conversion has failed. *)
Definition on_qr (dataUrl : Outcome string) : M State unit :=
  match dataUrl with
  | Returns url =>
      emit (Qr url) ;;
      updateStatus "Scan QR Code" ;;
      emit ScanPrompt
  | Throws err => mret tt
  end.

(** Lines 133-174. *)
Definition on_ready : M State unit :=
  updateStatus "Connected" ;;
  emit Ready ;;
  set_reconnecting false ;;
  emit FetchingGroups ;;
  start_fetch_loop.

(** Lines 176-180. *)
Definition on_authenticated : M State unit :=
  updateStatus "Authenticated" ;;
  emit AuthenticatedNotice.

(** Lines 182-186. *)
Definition on_auth_failure (msg : string) : M State unit :=
  updateStatus "Auth Failure" ;;
  emit (AuthFailedNotice msg).

(** Lines 188-202. *)
Definition on_disconnected (reason : string) (destroy : Outcome unit) : M State unit :=
  updateStatus "Disconnected" ;;
  emit (DisconnectedNotice reason) ;;
  reconnecting ← gets isReconnecting ;
  if negb reconnecting then
    set_reconnecting true ;;
    try_catch (call_destroy destroy) (fun e => mret tt) ;;
    setTimeout_initializeClient 3000
  else mret tt.

Definition on_signal (sig : Signal) : M State unit :=
  match sig with
  | QrChallenge dataUrl => on_qr dataUrl
  | ReadySignal => on_ready
  | Authenticated => on_authenticated
  | AuthFailure msg => on_auth_failure msg
  | Disconnected reason destroy => on_disconnected reason destroy
  end.

(** The handler bodies run one after the other, in the order of the
    list. *)
Definition on_signals (sigs : list Signal) : M State unit := for_of sigs on_signal.

(** What a socket that connects is sent (lines 54-60): the status, the
    group snapshot and, when there are groups, a line with their number. *)
Inductive SocketMessage :=
| SStatus (label : string)
| SGroups (snapshot : list Directory.GroupRecord)
| SSyncing (count : nat).

Definition on_connection (s : State) (availableGroups : list Directory.GroupRecord)
    : list SocketMessage :=
  SStatus (currentStatus s) :: SGroups availableGroups
  :: (if (0 <? length availableGroups)%nat then [SSyncing (length availableGroups)] else []).

Definition is_ready (sig : Signal) : bool :=
  match sig with ReadySignal => true | _ => false end.

Definition is_disconnected (sig : Signal) : bool :=
  match sig with Disconnected _ _ => true | _ => false end.

(** The label of the last status broadcast. *)
Fixpoint last_status (events : list Event) : option string :=
  match events with
  | [] => None
  | e :: rest =>
      match last_status rest with
      | Some l => Some l
      | None => match e with Status l => Some l | _ => None end
      end
  end.

(** Process start: line 51 and line 63. *)
Definition initial : State := mkState "Initializing..." false [] 0 [] 0.

End Session.

(** ** The dashboard script (public/app.js) *)

Module Dashboard.
Import JsString Routing Directory.

(** [getGroupName], lines 77-80.  [id.substring(0, 15)] counts UTF-16 code
    units and [String.substring] counts bytes: the two agree for an id of
    7-bit characters ([is_ascii]), such as 120363041234567890@g.us. *)
Definition getGroupName (availableGroups : list GroupRecord) (id : string) : string :=
  match List.find (fun g => String.eqb (Directory.id g) id) availableGroups with
  | Some g => name g
  | None => String.substring 0 15 id +:+ "..."
  end.



End Dashboard.

(** ** Shapes of the engine calls of one delivery attempt *)

Module Trace.
Import Js JsString Routing Delivery.

(** The options object of lines 298-302. *)
Definition options_of (msg : Message) (type : string) : SendOptions :=
  mkSendOptions (or_default (msg_body msg) "")
                (String.eqb type "ptt" || String.eqb type "audio")
                false.

(** The four call sequences an attempt can make. *)
Definition one_attempt (msg : Message) (type : string) (targetId : GroupId)
    (cs : list EngineCall) : Prop :=
  (hasMedia msg = false /\ cs = [Forward targetId])
  \/ (hasMedia msg = true
      /\ (cs = [DownloadMedia; Forward targetId]
          \/ exists filename mime,
               cs = [DownloadMedia; SendMessage targetId filename mime (options_of msg type)]
               \/ cs = [DownloadMedia; SendMessage targetId filename mime (options_of msg type);
                        Forward targetId])).

(** The answers that let stage 1 run to its end once the public directory
    is there: there is a payload, its extension is found, the write is
    accepted, the file written is not empty and the send returns. *)
Definition native_ok (env : AttemptEnv) : Prop :=
  exists media m ext,
    download env = Returns media
    /\ has_data media = Some m
    /\ Ext.ext_of (or_default (mimetype m) "application/octet-stream") = Returns ext
    /\ write env = Returns tt
    /\ written env <> 0%N
    /\ send env = Returns tt.

(** [w'] has the timers of [w] and some more, and differs from [w] only in
    files these further timers will remove. *)
Definition tidy (w w' : World) : Prop :=
  exists extra,
    timers w' = timers w ++ extra
    /\ forall p, p ∉ (snd <$> extra) -> files w' !! p = files w !! p.

Definition is_download (c : EngineCall) : bool :=
  match c with DownloadMedia => true | _ => false end.

Definition downloads (cs : list EngineCall) : nat :=
  length (List.filter is_download cs).

Definition voice_or_document (c : EngineCall) : bool :=
  match c with
  | SendMessage _ _ _ options => sendAudioAsVoice options || sendMediaAsDocument options
  | _ => false
  end.

End Trace.

(** ** Letting the timers of the controller fire *)

Module Scheduler.
Import Js Lifecycle.

(** Lets the next [n] timers fire; the task of the k-th one gets its answers
    from [oracle k].  Stops early when no timer is pending or a task
    throws. *)
Fixpoint fire_many (oracle : nat -> Env) (n k : nat) (s : State) : State :=
  match n with
  | O => s
  | S n' =>
      match fire_next (oracle k) s with
      | Some (_, (Returns _, s')) => fire_many oracle n' (S k) s'
      | Some (_, (Throws _, s')) => s'
      | None => s
      end
  end.

Definition is_initialize (c : Call) : bool :=
  match c with Initialize => true | _ => false end.

(** The number of calls of [client.initialize()]. *)
Definition initializations (cs : list Call) : nat :=
  length (List.filter is_initialize cs).

(** The initialization answered by [env] fails with a corruption
    signature in its message. *)
Definition corrupt (env : Env) : Prop :=
  exists e, initialize env = Throws e
            /\ is_corruption (JsString.or_default (message e) "") = true.

(** The initialization answered by [env] fails with any other error. *)
Definition failing (env : Env) : Prop :=
  exists e, initialize env = Throws e
            /\ is_corruption (JsString.or_default (message e) "") = false.

End Scheduler.

(** ** Theorems *)

Section RoutingFacts.
Import Routing.

Lemma delete_last (T : list Rule) (r : Rule) :
  delete (length T) (T ++ [r]) = T.
Proof.
  induction T as [|x T IH]; simpl; [reflexivity|].
  now rewrite IH.
Qed.

(** C9. Appending a rule and then deleting the rule at the index it was
    appended at (the previous length of the table) gives back the table as
    it was before the append. *)
Theorem append_then_delete_restores (T : list Rule) (P : list (list Rule)) (r : Rule) :
  let s0 := mkServer T P in
  let s1 := fst (post_rule r s0) in
  let out := delete_rule (Some (Z.of_nat (length T))) s1 in
  rules s1 = T ++ [r]
  /\ rules s1 !! length T = Some r
  /\ rules (fst out) = T
  /\ snd out = Success T.
Proof.
  cbn zeta. unfold post_rule, delete_rule, writeConfig. cbn [fst snd rules persisted].
  rewrite length_app. cbn [length].
  replace (0 <=? Z.of_nat (length T))%Z with true by (symmetry; apply Z.leb_le; lia).
  replace (Z.of_nat (length T) <? Z.of_nat (length T + 1))%Z with true
    by (symmetry; apply Z.ltb_lt; lia).
  cbn [andb fst snd rules]. rewrite Nat2Z.id, delete_last.
  repeat split; try reflexivity.
  rewrite lookup_app_r by lia. now rewrite Nat.sub_diag.
Qed.

(** C10. A delete request whose index is not in [0, length) is answered
    with an error, leaves the table as it is and writes nothing; for an
    index inside the range exactly the rule at that position is removed,
    and the updated table is both written out and returned. *)
Theorem delete_rule_atomic (index : option Z) (s : Server) :
  (in_range index s = false ->
     delete_rule index s = (s, Failure 400 "Invalid index"))
  /\ (in_range index s = true ->
       exists (i : nat) (r : Rule),
         index = Some (Z.of_nat i)
         /\ rules s = take i (rules s) ++ r :: drop (S i) (rules s)
         /\ rules (fst (delete_rule index s))
            = take i (rules s) ++ drop (S i) (rules s)
         /\ persisted (fst (delete_rule index s))
            = persisted s ++ [rules (fst (delete_rule index s))]
         /\ snd (delete_rule index s)
            = Success (rules (fst (delete_rule index s)))).
Proof.
  unfold in_range, delete_rule. destruct index as [i|]; split; try discriminate; try reflexivity.
  - intros ->. reflexivity.
  - intros H. rewrite H. cbn [fst snd rules persisted writeConfig].
    apply andb_true_iff in H as [H0 H1].
    apply Z.leb_le in H0. apply Z.ltb_lt in H1.
    assert (Hlt : (Z.to_nat i < length (rules s))%nat) by lia.
    destruct (lookup_lt_is_Some_2 (rules s) (Z.to_nat i) Hlt) as [r Hr].
    exists (Z.to_nat i), r. repeat split.
    + now rewrite Z2Nat.id.
    + symmetry. now apply take_drop_middle.
    + apply delete_take_drop.
Qed.

Lemma delete_rule_atomic_witness :
  delete_rule (Some 5%Z) (mkServer [mkRule "A" ["B"] None] [])
  = (mkServer [mkRule "A" ["B"] None] [], Failure 400 "Invalid index")
  /\ exists (i : nat) (r : Rule),
       Some 0%Z = Some (Z.of_nat i)
       /\ [mkRule "A" ["B"] None; mkRule "A" ["C"] None]
          = take i [mkRule "A" ["B"] None; mkRule "A" ["C"] None]
            ++ r :: drop (S i) [mkRule "A" ["B"] None; mkRule "A" ["C"] None].
Proof.
  split.
  - apply (proj1 (delete_rule_atomic (Some 5%Z) (mkServer [mkRule "A" ["B"] None] []))).
    reflexivity.
  - destruct (proj2 (delete_rule_atomic (Some 0%Z)
                       (mkServer [mkRule "A" ["B"] None; mkRule "A" ["C"] None] []))
                    eq_refl) as (i & r & Hi & Hr & _).
    exists i, r. split; [exact Hi|exact Hr].
Defined.

End RoutingFacts.

Section StringFacts.
Import JsString.

Lemma split_nonempty sep s : split sep s <> [].
Proof.
  destruct s as [|c r]; simpl; [discriminate|].
  destruct (Ascii.eqb c sep); [discriminate|].
  destruct (split sep r); discriminate.
Qed.

(** [startsWith] is "begins with". *)
Lemma startsWith_iff (s p : string) :
  startsWith s p = true <-> exists rest, s = p +:+ rest.
Proof.
  unfold startsWith. revert s.
  induction p as [|c p IH]; intros s.
  - split; [intros _; now exists s | intros _; destruct s; reflexivity].
  - destruct s as [|d s]; simpl.
    + split; [discriminate | intros [rest H]; discriminate].
    + destruct (ascii_dec c d) as [->|Hne].
      * split.
        -- intros H. apply IH in H as [rest ->]. now exists rest.
        -- intros [rest H]. inversion H; subst. apply IH. now exists rest.
      * split; [discriminate | intros [rest H]; inversion H; congruence].
Qed.

(** [includes] is "contains as a substring". *)
Lemma includes_iff (s needle : string) :
  includes s needle = true <-> exists pre post, s = pre +:+ needle +:+ post.
Proof.
  induction s as [|c s IH].
  - cbn [includes]. rewrite orb_false_r. fold (startsWith "" needle).
    rewrite startsWith_iff. split.
    + intros [rest H]. exists "", rest. exact H.
    + intros [pre [post H]]. destruct pre; [now exists post | discriminate].
  - cbn [includes]. rewrite orb_true_iff, IH. fold (startsWith (String c s) needle).
    rewrite startsWith_iff. split.
    + intros [[rest H] | [pre [post H]]].
      * exists "", rest. exact H.
      * exists (String c pre), post. simpl. now rewrite H.
    + intros [pre [post H]]. destruct pre as [|d pre].
      * left. now exists post.
      * right. simpl in H. inversion H; subst. now exists pre, post.
Qed.

End StringFacts.

Section ClassifierFacts.
Import JsString Classifier.

(** C4. [isMedia] is true exactly when the declared type is image, video
    or gif, or it is document and the MIME type begins with "image/" or
    "video/"; a document of MIME type image/png is media, one of MIME type
    application/pdf is not. *)
Theorem isMedia_exactly (type mime : string) :
  (isMedia type mime = true <->
     (type = "image" \/ type = "video" \/ type = "gif")
     \/ (type = "document"
         /\ ((exists rest, mime = "image/" +:+ rest)
             \/ (exists rest, mime = "video/" +:+ rest))))
  /\ isMedia "document" (mime_of (Some "image/png")) = true
  /\ isMedia "document" (mime_of (Some "application/pdf")) = false.
Proof.
  split; [|split; reflexivity].
  unfold isMedia. rewrite <- !startsWith_iff.
  destruct (String.eqb_spec type "document") as [->|Hdoc].
  - destruct (startsWith mime "image/") eqn:Hi, (startsWith mime "video/") eqn:Hv;
      cbn [orb]; split; intros H; try (right; split; [reflexivity|tauto]); try reflexivity.
    exfalso. destruct H as [[H|[H|H]]|[_ [H|H]]]; discriminate.
  - rewrite bool_decide_eq_true. rewrite !elem_of_cons, elem_of_nil. tauto.
Qed.

End ClassifierFacts.

Section ExtFacts.
Import Js JsString Ext.

(** The three stages of the mapping, where the MIME string has a slash. *)
Lemma ext_of_table (mime ext : string) :
  own (first_segment ";" mime) mimeMap = Some ext -> ext_of mime = Returns ext.
Proof.
  intros H. unfold ext_of, get. rewrite H.
  assert (Ht : truthy ext = true).
  { revert H. unfold mimeMap. cbn [own].
    repeat (destruct (String.eqb _ _); [intros [= <-]; reflexivity|]). discriminate. }
  now rewrite Ht.
Qed.

Lemma ext_of_subtype (mime sub : string) :
  get (first_segment ";" mime) = Undefined ->
  split "/" mime !! 1%nat = Some sub ->
  ext_of mime = Returns (if truthy (first_segment ";" sub)
                         then first_segment ";" sub else "bin").
Proof.
  intros Hg Hs. unfold ext_of. rewrite Hg, Hs.
  now destruct (truthy (first_segment ";" sub)).
Qed.

(** C8. The mapping raises on a MIME string without a slash: for "foo" the
    table has no entry, index 1 of the split is undefined, and the call of
    [split] on it throws instead of yielding "bin"; the table and the
    subtype stages behave as described ("video/mp4; codecs=avc1" gives
    "mp4", "application/pdf" gives "pdf", "application/" gives "bin"). *)
Theorem ext_of_raises_without_slash :
  ext_of "foo" = Throws (TypeError "Cannot read properties of undefined (reading 'split')")
  /\ ext_of "video/mp4; codecs=avc1" = Returns "mp4"
  /\ ext_of "application/pdf" = Returns "pdf"
  /\ ext_of "application/" = Returns "bin".
Proof. repeat split. Qed.

End ExtFacts.

Section DeliveryFacts.
Import Js JsString Routing Delivery.

Ltac run_handler :=
  unfold deliver, native_upload, try_catch, emit, log, call, lift, modify, gets, throw,
    ensure_publicDir, writeFileSync, statSync, setTimeout_unlink,
    mbind, M_bind, mret, M_ret;
  cbn.

(** Uses [saved env w] to get past the directory check and the write. *)
Ltac save_ok H :=
  let Hp := fresh "Hp" in
  let Hmk := fresh "Hmk" in
  let Hwr := fresh "Hwr" in
  destruct H as [[Hp|Hmk] Hwr];
  [rewrite Hp|destruct (publicDir_exists _); [|rewrite Hmk]];
  cbn; rewrite Hwr; cbn; rewrite lookup_insert_eq; cbn.

Lemma fire_timers_keeps (path : string) (ts : list (Z * string)) (m : gmap string N) :
  path ∉ (snd <$> ts) ->
  foldl (fun m t => base.delete (snd t) m) m ts !! path = m !! path.
Proof.
  revert m. induction ts as [|[d p] ts IH]; intros m Hn; [reflexivity|].
  cbn in *. apply not_elem_of_cons in Hn as [Hne Hn].
  rewrite IH by assumption. now apply lookup_delete_ne.
Qed.

Lemma fire_timers_removes (path : string) (ts : list (Z * string)) (m : gmap string N) :
  path ∈ (snd <$> ts) ->
  foldl (fun m t => base.delete (snd t) m) m ts !! path = None.
Proof.
  revert m. induction ts as [|[d p] ts IH]; intros m Hin; cbn in *.
  - now apply elem_of_nil in Hin.
  - destruct (decide (path ∈ (snd <$> ts))) as [Hl|Hl]; [now apply IH|].
    apply elem_of_cons in Hin as [->|Hin]; [|contradiction].
    rewrite fire_timers_keeps by assumption. apply lookup_delete_eq.
Qed.

(** Stage 1 when the send succeeds: the cleanup is scheduled with a delay of
    30000 ms, and the file is gone once the timers have fired. *)
Lemma cleanup_after_successful_send env msg type targetId w media m ext :
  download env = Returns media ->
  has_data media = Some m ->
  Ext.ext_of (or_default (mimetype m) "application/octet-stream") = Returns ext ->
  saved env w ->
  written env <> 0%N ->
  send env = Returns tt ->
  let path := filePath_of (filename_of (now env) ext) in
  let out := native_upload env msg type targetId w in
  fst out = Returns true
  /\ timers (snd out) = timers w ++ [(30000%Z, path)]
  /\ files (fire_timers (snd out)) !! path = None.
Proof.
  intros Hd Hm He Hsv Hw Hs. run_handler. rewrite Hd. cbn. rewrite Hm, He. cbn.
  save_ok Hsv;
    (destruct (N.eqb_spec (written env) 0) as [?|_]; [contradiction|]);
    rewrite Hs; cbn; repeat split;
    apply fire_timers_removes; rewrite fmap_app; cbn; apply elem_of_app; right; now left.
Qed.

(** C1. When the temporary file of stage 1 has been written (the public
    directory is there or can be made, and the write is accepted) and the
    send throws, the file stays and no cleanup is scheduled for it: the
    timer list is unchanged, and the file is still there after every pending
    timer has fired. *)
Theorem cleanup_lost_when_send_throws env msg type targetId w media m ext e :
  hasMedia msg = true ->
  download env = Returns media ->
  has_data media = Some m ->
  Ext.ext_of (or_default (mimetype m) "application/octet-stream") = Returns ext ->
  saved env w ->
  written env <> 0%N ->
  send env = Throws e ->
  let path := filePath_of (filename_of (now env) ext) in
  let w' := snd (deliver env msg type targetId w) in
  files w' !! path = Some (written env)
  /\ timers w' = timers w
  /\ (path ∉ (snd <$> timers w) ->
      files (fire_timers w') !! path = Some (written env)).
Proof.
  intros Hh Hd Hm He Hsv Hw Hs. run_handler. rewrite Hh, Hd. cbn. rewrite Hm, He. cbn.
  save_ok Hsv;
    (destruct (N.eqb_spec (written env) 0) as [?|_]; [contradiction|]);
    rewrite Hs; cbn;
    destruct (forward env); cbn; rewrite lookup_insert_eq; repeat split;
    intros Hn; rewrite fire_timers_keeps by assumption; apply lookup_insert_eq.
Qed.

Lemma cleanup_lost_when_send_throws_witness :
  let path := filePath_of (filename_of (now send_throws) "png") in
  let w' := snd (deliver send_throws photo "image" "B" initial) in
  files w' !! path = Some (written send_throws)
  /\ timers w' = timers initial
  /\ (path ∉ (snd <$> timers initial) ->
      files (fire_timers w') !! path = Some (written send_throws)).
Proof.
  apply (cleanup_lost_when_send_throws send_throws photo "image" "B" initial
           (Some png) png "png" boom); try reflexivity.
  - split; [left|]; reflexivity.
  - discriminate.
Defined.

(** C5. When the download yields no payload, or the file written from it
    has size zero, stage 1 ends with [sentAsMedia] false and stage 2 is
    attempted: the only engine calls of the attempt are the download and
    the forward of the original message to the target. *)
Theorem empty_payload_falls_back_to_forward env msg type targetId w media :
  hasMedia msg = true ->
  download env = Returns media ->
  (has_data media = None
   \/ exists m ext,
        has_data media = Some m
        /\ Ext.ext_of (or_default (mimetype m) "application/octet-stream") = Returns ext
        /\ written env = 0%N) ->
  fst (native_upload env msg type targetId w) = Returns false
  /\ let w' := snd (deliver env msg type targetId w) in
     calls w' = calls w ++ [DownloadMedia; Forward targetId]
     /\ timers w' = timers w
     /\ exists lines, sink w' = (sink w ++ lines)
                      /\ (SentNative ∉ lines)
                      /\ SwitchingToForward ∈ lines.
Proof.
  intros Hh Hd Hcase. run_handler. rewrite Hh, Hd. cbn.
  destruct Hcase as [Hn | (m & ext & Hm & He & Hz)].
  - rewrite Hn. cbn. split; [reflexivity|].
    destruct (forward env); cbn; rewrite <- !app_assoc; cbn;
      (split; [reflexivity|split; [reflexivity|]]);
      eexists; (split; [reflexivity|]); split;
      rewrite ?elem_of_cons, ?not_elem_of_cons, ?elem_of_nil; intuition congruence.
  - rewrite Hm, He. cbn.
    destruct (publicDir_exists w); [|destruct (mkdir env)]; cbn;
      try (destruct (write env); cbn; rewrite ?lookup_insert_eq; cbn; rewrite ?Hz; cbn);
      (split; [reflexivity|]);
      destruct (forward env); cbn; rewrite <- !app_assoc; cbn;
      (split; [reflexivity|split; [reflexivity|]]);
      eexists; (split; [reflexivity|]); split;
      rewrite ?elem_of_cons, ?not_elem_of_cons, ?elem_of_nil; intuition congruence.
Qed.

Lemma empty_payload_falls_back_to_forward_witness :
  fst (native_upload empty_file photo "image" "B" initial) = Returns false
  /\ let w' := snd (deliver empty_file photo "image" "B" initial) in
     calls w' = calls initial ++ [DownloadMedia; Forward "B"]
     /\ timers w' = timers initial
     /\ exists lines, sink w' = (sink initial ++ lines)
                      /\ (SentNative ∉ lines)
                      /\ SwitchingToForward ∈ lines.
Proof.
  apply (empty_payload_falls_back_to_forward empty_file photo "image" "B" initial (Some png));
    try reflexivity.
  right. exists png, "png". repeat split.
Defined.

Lemma reaches_app (t : GroupId) (cs cs' : list EngineCall) :
  reaches t cs \/ reaches t cs' -> reaches t (cs ++ cs').
Proof.
  unfold reaches. intros [[H|(f & m & o & H)]|[H|(f & m & o & H)]];
    [left|right; exists f, m, o|left|right; exists f, m, o];
    apply elem_of_app; auto.
Qed.

(** One pass through the loop body never throws, whatever the engine does:
    it leaves the list of entered attempts alone and makes at least one
    engine call that names its target. *)
Lemma deliver_total env msg type targetId w :
  exists w' cs,
    deliver env msg type targetId w = (Returns tt, w')
    /\ attempted w' = attempted w
    /\ calls w' = calls w ++ cs
    /\ reaches targetId cs.
Proof.
  assert (Hf : forall cs, reaches targetId (cs ++ [Forward targetId])).
  { intros cs. left. apply elem_of_app. right. now left. }
  assert (Hs : forall cs f m o, reaches targetId (cs ++ [SendMessage targetId f m o])).
  { intros cs f m o. right. exists f, m, o. apply elem_of_app. right. now left. }
  run_handler.
  destruct (hasMedia msg); cbn.
  2: { destruct (forward env); cbn; eexists _, [_]; repeat split; apply (Hf []). }
  destruct (download env) as [media|e]; cbn.
  2: { destruct (forward env); cbn; rewrite <- !app_assoc; eexists _, _;
       repeat split; apply (Hf [_]). }
  destruct (has_data media) as [m|]; cbn.
  2: { destruct (forward env); cbn; rewrite <- !app_assoc; eexists _, _;
       repeat split; apply (Hf [_]). }
  destruct (Ext.ext_of _) as [ext|e]; cbn.
  2: { destruct (forward env); cbn; rewrite <- !app_assoc; eexists _, _;
       repeat split; apply (Hf [_]). }
  destruct (publicDir_exists w); [|destruct (mkdir env) as [[]|e]]; cbn.
  3: { destruct (forward env); cbn; rewrite <- !app_assoc; eexists _, _;
       repeat split; apply (Hf [_]). }
  all: destruct (write env) as [[]|e]; cbn.
  2, 4: destruct (forward env); cbn; rewrite <- !app_assoc; eexists _, _;
       repeat split; apply (Hf [_]).
  all: rewrite lookup_insert_eq; cbn.
  all: destruct (written env =? 0)%N; cbn.
  1, 3: destruct (forward env); cbn; rewrite <- !app_assoc; eexists _, _;
       repeat split; apply (Hf [_]).
  all: destruct (send env) as [[]|e]; cbn.
  1, 3: rewrite <- !app_assoc; eexists _, _; repeat split; apply (Hs [_]).
  all: destruct (forward env); cbn; rewrite <- !app_assoc; eexists _, _;
      repeat split; apply (Hf [_; _]).
Qed.

Lemma targets_loop oracle chat msg type (ts : list GroupId) w :
  exists w' cs,
    for_of ts (fun targetId =>
      if String.eqb targetId (chat_id chat) then mret tt
      else env ← next_attempt oracle ;
           enter_attempt targetId ;;
           deliver env msg type targetId) w = (Returns tt, w')
    /\ attempted w' = attempted w ++ filter (fun t => t <> chat_id chat) ts
    /\ calls w' = calls w ++ cs
    /\ forall t, t ∈ filter (fun t => t <> chat_id chat) ts -> reaches t cs.
Proof.
  revert w. induction ts as [|t ts IH]; intros w.
  - exists w, []. cbn. rewrite !app_nil_r. repeat split. intros t Ht.
    now apply elem_of_nil in Ht.
  - cbn [for_of]. unfold mbind at 1, M_bind at 1.
    destruct (String.eqb_spec t (chat_id chat)) as [Heq|Hne].
    + rewrite filter_cons_False by (intros H; now apply H).
      cbn. destruct (IH w) as (w' & cs & Hrun & Ha & Hc & Hr).
      exists w', cs. auto.
    + rewrite filter_cons_True by assumption.
      unfold next_attempt, gets, enter_attempt, modify, mbind, M_bind. cbn.
      match goal with |- context [deliver ?e msg type t ?w0] =>
        destruct (deliver_total e msg type t w0) as (w1 & cs1 & Hrun1 & Ha1 & Hc1 & Hr1)
      end.
      rewrite Hrun1. cbn in Ha1, Hc1.
      destruct (IH w1) as (w' & cs & Hrun & Ha & Hc & Hr).
      exists w', (cs1 ++ cs).
      split; [exact Hrun|]. split; [|split].
      * rewrite Ha, Ha1, <- app_assoc. reflexivity.
      * rewrite Hc, Hc1, <- app_assoc. reflexivity.
      * intros t' Ht'. apply reaches_app. apply elem_of_cons in Ht' as [->|Ht']; auto.
Qed.

(** One turn of the rule loop. *)
Lemma deliver_all_cons oracle chat msg type (r : Rule) (rs : list Rule) w :
  deliver_all oracle chat msg type (r :: rs) w
  = match targets_value r with
    | Some ts =>
        match for_of ts (fun targetId =>
                if String.eqb targetId (chat_id chat) then mret tt
                else env ← next_attempt oracle ;
                     enter_attempt targetId ;;
                     deliver env msg type targetId) w with
        | (Returns _, w1) => deliver_all oracle chat msg type rs w1
        | (Throws e, w1) => (Throws e, w1)
        end
    | None => (Throws (TypeError "rule.targets is not iterable"), w)
    end.
Proof.
  unfold deliver_all. cbn [for_of]. unfold iterate_targets.
  destruct (targets_value r); reflexivity.
Qed.

(** The rule loop stops at the first rule whose targets cannot be iterated,
    with the TypeError of the loop head; up to there every pair is entered. *)
Lemma deliver_all_attempts oracle chat msg type (rs : list Rule) w :
  exists o w' cs,
    deliver_all oracle chat msg type rs w = (o, w')
    /\ o = (if forallb iterable rs then Returns tt
            else Throws (TypeError "rule.targets is not iterable"))
    /\ attempted w'
       = attempted w ++ flat_map (fun r => filter (fun t => t <> chat_id chat) (targets r))
                                 (iterable_prefix rs)
    /\ calls w' = calls w ++ cs
    /\ forall t,
         t ∈ flat_map (fun r => filter (fun t => t <> chat_id chat) (targets r))
                      (iterable_prefix rs) ->
         reaches t cs.
Proof.
  revert w. induction rs as [|r rs IH]; intros w.
  - exists (Returns tt), w, []. cbn. rewrite !app_nil_r. repeat split. intros t Ht.
    now apply elem_of_nil in Ht.
  - rewrite deliver_all_cons. cbn [iterable_prefix].
    destruct (targets_value r) as [ts|] eqn:Hts.
    + assert (Htr : targets r = ts) by (unfold targets; now rewrite Hts).
      cbn [flat_map]. rewrite Htr.
      destruct (targets_loop oracle chat msg type ts w)
        as (w1 & cs1 & Hrun1 & Ha1 & Hc1 & Hr1).
      rewrite Hrun1.
      destruct (IH w1) as (o & w' & cs & Hrun & Ho & Ha & Hc & Hr).
      exists o, w', (cs1 ++ cs). split; [exact Hrun|]. split; [|split; [|split]].
      * rewrite Ho. cbn [forallb]. unfold iterable at 2. now rewrite Hts.
      * rewrite Ha, Ha1, <- app_assoc. reflexivity.
      * rewrite Hc, Hc1, <- app_assoc. reflexivity.
      * intros t Ht. apply reaches_app. apply elem_of_app in Ht as [Ht|Ht]; auto.
    + exists (Throws (TypeError "rule.targets is not iterable")), w, [].
      cbn. unfold iterable. rewrite Hts, !app_nil_r. cbn. repeat split.
      intros t Ht. now apply elem_of_nil in Ht.
Qed.

Lemma validRules_nonempty_ltb (chatId : GroupId) (rs : list Rule) :
  validRules chatId rs <> [] -> (0 <? length (validRules chatId rs))%nat = true.
Proof.
  intros H. apply Nat.ltb_lt. destruct (validRules chatId rs); [contradiction|cbn; lia].
Qed.

(** When every rule's targets can be iterated the loops get to every pair. *)
Lemma iterable_prefix_all (rs : list Rule) :
  (forall r, r ∈ rs -> targets_value r <> None) -> iterable_prefix rs = rs.
Proof.
  induction rs as [|r rs IH]; intros H; [reflexivity|]. cbn.
  destruct (targets_value r) eqn:Hr.
  - f_equal. apply IH. intros r' Hr'. apply H. now right.
  - exfalso. apply (H r); [now left|exact Hr].
Qed.

Lemma forallb_iterable_false (rs : list Rule) (r : Rule) :
  r ∈ rs -> targets_value r = None -> forallb iterable rs = false.
Proof.
  intros Hin Hr. induction rs as [|r' rs IH]; [now apply elem_of_nil in Hin|].
  cbn. apply elem_of_cons in Hin as [<-|Hin].
  - unfold iterable. now rewrite Hr.
  - rewrite IH by assumption. apply andb_false_r.
Qed.

(** C2 (as the code has it). For a media message in a group with a matching
    rule the handler returns normally and enters exactly one delivery
    attempt per visited (rule, target) pair whose target is not the
    message's own chat, in order and whatever the engine throws during any
    of them; every such target is named by a send or a forward call.  The
    visited pairs are those of the matching rules up to the first one whose
    targets cannot be iterated: the loop head throws there, outside the
    per-target try, and the handler's own catch logs the error and ends the
    run.  When the targets of every matching rule can be iterated, all pairs
    are visited; that is M attempts when no target occurs twice among the
    pairs.  For the rule
    {source: A, targets: [B, C]} there are two attempts, and C is still
    sent to when every engine call of the B attempt throws; with a matching
    rule without targets between A -> [B] and A -> [C], only B is
    attempted. *)
Theorem one_attempt_per_rule_target_pair oracle rules chat msg w :
  isGroup chat = true ->
  validRules (chat_id chat) rules <> [] ->
  Classifier.isMedia (msg_type msg) (Classifier.mime_of (msg_mimetype msg)) = true ->
  let out := on_message_create oracle rules (Returns chat) msg w in
  let ps := pairs (chat_id chat) rules in
  let vs := visited (chat_id chat) rules in
  fst out = Returns tt
  /\ attempted (snd out) = attempted w ++ vs
  /\ (exists cs, calls (snd out) = calls w ++ cs /\ forall t, t ∈ vs -> reaches t cs)
  /\ ((forall r, r ∈ validRules (chat_id chat) rules -> targets_value r <> None) ->
      vs = ps)
  /\ ((exists r, r ∈ validRules (chat_id chat) rules /\ targets_value r = None) ->
      last (console (snd out))
      = Some (ErrorProcessing (TypeError "rule.targets is not iterable")))
  /\ (NoDup ps -> length ps = length (remove_dups ps))
  /\ (let out2 := on_message_create
                    (fun n => if Nat.eqb n 0 then all_throw else all_fine)
                    [mkRule "A" ["B"; "C"] None]
                    (Returns (mkChat "A" "Family" true)) photo initial in
      attempted (snd out2) = ["B"; "C"]
      /\ exists filename mime options,
           calls (snd out2)
           = [DownloadMedia; Forward "B"; DownloadMedia;
              SendMessage "C" filename mime options])
  /\ (let out3 := on_message_create (fun _ => all_fine)
                    [mkRule "A" ["B"] None; no_targets "A"; mkRule "A" ["C"] None]
                    (Returns (mkChat "A" "Family" true)) photo initial in
      fst out3 = Returns tt
      /\ attempted (snd out3) = ["B"]
      /\ pairs "A" [mkRule "A" ["B"] None; no_targets "A"; mkRule "A" ["C"] None]
         = ["B"; "C"]).
Proof.
  intros Hg Hv Hm. cbn zeta.
  assert (Hhandler : exists w' cs,
             on_message_create oracle rules (Returns chat) msg w = (Returns tt, w')
             /\ attempted w' = attempted w ++ visited (chat_id chat) rules
             /\ calls w' = calls w ++ cs
             /\ (forall t, t ∈ visited (chat_id chat) rules -> reaches t cs)
             /\ (forallb iterable (validRules (chat_id chat) rules) = false ->
                 last (console w')
                 = Some (ErrorProcessing (TypeError "rule.targets is not iterable")))).
  { unfold on_message_create, try_catch, lift, mbind at 1, M_bind at 1. rewrite Hg.
    cbn [negb]. rewrite (validRules_nonempty_ltb _ _ Hv), Hm.
    unfold log, emit, modify, mbind, M_bind, mret, M_ret. unfold visited.
    destruct (_ && _); cbn;
      match goal with |- context [deliver_all _ _ _ ?ty ?rs ?w0] =>
        destruct (deliver_all_attempts oracle chat msg ty rs w0)
          as (o & w' & cs & Hrun & Ho & Ha & Hc & Hr)
      end;
      rewrite Hrun, Ho; destruct (forallb iterable _); cbn;
      eexists _, cs; (split; [reflexivity|]); cbn;
      (repeat split; [exact Ha|exact Hc|exact Hr|]);
      intros Hf; try discriminate; apply last_snoc. }
  destruct Hhandler as (w' & cs & -> & Ha & Hc & Hr & Hl). cbn [fst snd].
  split; [reflexivity|]. split; [exact Ha|]. split; [now exists cs|].
  split; [|split; [|split; [|split]]].
  - intros Hall. unfold visited, pairs. now rewrite iterable_prefix_all.
  - intros (r & Hin & Hr0). apply Hl. exact (forallb_iterable_false _ r Hin Hr0).
  - intros Hnd. f_equal. revert Hnd. generalize (pairs (chat_id chat) rules).
    intros l. induction l as [|x l IH]; intros Hnd; [reflexivity|].
    apply NoDup_cons in Hnd as [Hx Hnd]. cbn.
    destruct (decide_rel elem_of x l); [contradiction|]. now rewrite <- IH.
  - split; [vm_compute; reflexivity|]. eexists _, _, _. vm_compute. reflexivity.
  - vm_compute. repeat split.
Qed.

Lemma one_attempt_per_rule_target_pair_witness :
  let out := on_message_create (fun _ => all_throw)
               [mkRule "A" ["B"; "A"] None; mkRule "A" ["C"] None]
               (Returns (mkChat "A" "Family" true)) photo initial in
  fst out = Returns tt /\ attempted (snd out) = ["B"; "C"].
Proof.
  pose proof (one_attempt_per_rule_target_pair (fun _ => all_throw)
                [mkRule "A" ["B"; "A"] None; mkRule "A" ["C"] None]
                (mkChat "A" "Family" true) photo initial
                eq_refl ltac:(discriminate) eq_refl) as H.
  cbn zeta in H. destruct H as (H1 & H2 & _). split; [exact H1|exact H2].
Defined.

(** The claim C2 as stated fails when two matching rules share a target:
    with the rules A -> [B] and A -> [B] there is one distinct target but
    two delivery attempts. *)
Lemma shared_target_is_attempted_twice :
  let rules := [mkRule "A" ["B"] None; mkRule "A" ["B"] None] in
  let out := on_message_create (fun _ => all_fine) rules
               (Returns (mkChat "A" "Family" true)) photo initial in
  length (remove_dups (pairs "A" rules)) = 1%nat
  /\ length (attempted (snd out)) = 2%nat
  /\ ~ (length (attempted (snd out)) <= length (remove_dups (pairs "A" rules)))%nat.
Proof.
  cbn zeta. split; [vm_compute; reflexivity|]. split; [vm_compute; reflexivity|].
  vm_compute. lia.
Qed.

(** C7 (as the code has it). A non-media message in a group with a matching
    rule is discarded: nothing is attempted, called, written or scheduled.
    Besides the debug trace every group message gets, the Event Sink
    receives a skip notice naming the declared type, unless that type is
    "chat", for which nothing more is emitted. *)
Theorem non_media_is_skipped oracle rules chat msg w :
  isGroup chat = true ->
  validRules (chat_id chat) rules <> [] ->
  Classifier.isMedia (msg_type msg) (Classifier.mime_of (msg_mimetype msg)) = false ->
  let out := on_message_create oracle rules (Returns chat) msg w in
  fst out = Returns tt
  /\ attempted (snd out) = attempted w
  /\ calls (snd out) = calls w
  /\ files (snd out) = files w
  /\ timers (snd out) = timers w
  /\ sink (snd out)
     = sink w ++ DebugSaw (msg_type msg) (chat_name chat)
              :: (if String.eqb (msg_type msg) "chat" then []
                  else [Skipped (msg_type msg)]).
Proof.
  intros Hg Hv Hm. cbn zeta.
  assert (Hhandler : exists w',
             on_message_create oracle rules (Returns chat) msg w = (Returns tt, w')
             /\ attempted w' = attempted w /\ calls w' = calls w
             /\ files w' = files w /\ timers w' = timers w
             /\ sink w'
                = sink w ++ DebugSaw (msg_type msg) (chat_name chat)
                         :: (if String.eqb (msg_type msg) "chat" then []
                             else [Skipped (msg_type msg)])).
  { unfold on_message_create, try_catch, lift, mbind at 1, M_bind at 1. rewrite Hg.
    cbn [negb]. rewrite (validRules_nonempty_ltb _ _ Hv), Hm.
    unfold log, emit, modify, mbind, M_bind, mret, M_ret.
    destruct (_ && _); destruct (String.eqb (msg_type msg) "chat"); cbn;
      eexists; (split; [reflexivity|]); cbn; rewrite <- ?app_assoc; repeat split. }
  destruct Hhandler as (w' & -> & H). exact (conj eq_refl H).
Qed.

Lemma non_media_is_skipped_witness :
  sink (snd (on_message_create (fun _ => all_fine) [mkRule "A" ["B"] None]
               (Returns (mkChat "A" "Family" true))
               (mkMessage "true_A@g.us_3EB1" "sticker" (Some "image/webp") None true)
               initial))
  = [DebugSaw "sticker" "Family"; Skipped "sticker"].
Proof.
  pose proof (non_media_is_skipped (fun _ => all_fine) [mkRule "A" ["B"] None]
                (mkChat "A" "Family" true)
                (mkMessage "true_A@g.us_3EB1" "sticker" (Some "image/webp") None true)
                initial eq_refl ltac:(discriminate) eq_refl) as H.
  cbn zeta in H. destruct H as (_ & _ & _ & _ & _ & H). exact H.
Defined.

(** The claim C7 as stated fails for a text message: its declared type is
    "chat", it is not media, the group has a matching rule, and no skip
    notice reaches the Event Sink. *)
Lemma text_message_gets_no_skip_notice :
  let rules := [mkRule "A" ["B"] None] in
  let msg := mkMessage "true_A@g.us_3EB2" "chat" None (Some "hello") false in
  let out := on_message_create (fun _ => all_fine) rules
               (Returns (mkChat "A" "Family" true)) msg initial in
  validRules "A" rules <> []
  /\ Classifier.isMedia (msg_type msg) (Classifier.mime_of (msg_mimetype msg)) = false
  /\ sink (snd out) = [DebugSaw "chat" "Family"]
  /\ ~ (exists type, Skipped type ∈ sink (snd out)).
Proof.
  cbn zeta. split; [discriminate|]. split; [reflexivity|]. split; [reflexivity|].
  intros [type H]. cbn in H. apply elem_of_cons in H as [H|H]; [discriminate|].
  now apply elem_of_nil in H.
Qed.

End DeliveryFacts.

Section LifecycleFacts.
Import Js JsString Lifecycle.

Ltac run_controller :=
  unfold initializeClient, cleanup, rm_if_exists, rm, existsSync, remove_dir, await,
    updateStatus, setTimeout, emit, call, try_catch, lift, modify, gets,
    mbind, M_bind, mret, M_ret;
  cbn.

(** The handlers that run during an await never throw; they add their
    events to the sink and leave the status of the last [Status] among
    them. *)
Lemma meanwhile_run (events : list Event) (s : State) :
  meanwhile events s
  = (Returns tt,
     mkState (status_after events (currentStatus s)) (sink s ++ events) (auth_exists s)
             (cache_exists s) (calls s) (clock s) (timers s)).
Proof.
  unfold meanwhile. revert s. induction events as [|ev events IH]; intros s.
  - cbn. rewrite app_nil_r. now destruct s.
  - cbn [for_of]. unfold mbind at 1, M_bind at 1.
    destruct ev; unfold updateStatus, emit, modify, mbind, M_bind; cbn;
      rewrite IH; cbn; rewrite <- app_assoc; reflexivity.
Qed.

(** The guard of lines 81-83 holds exactly for the messages that contain one
    of the three signatures. *)
Lemma is_corruption_iff (errorMsg : string) :
  is_corruption errorMsg = true
  <-> exists sig pre post, sig ∈ signatures /\ errorMsg = pre +:+ sig +:+ post.
Proof.
  unfold is_corruption, signatures. rewrite !orb_true_iff, !includes_iff. split.
  - intros [[(pre & post & H)|(pre & post & H)]|(pre & post & H)];
      eexists _, pre, post; (split; [|exact H]);
      rewrite !elem_of_cons; auto.
  - intros (sig & pre & post & Hin & H).
    rewrite !elem_of_cons, elem_of_nil in Hin.
    destruct Hin as [->|[->|[->|[]]]]; [left; left|left; right|right]; now exists pre, post.
Qed.

(** The repair task never throws and always re-arms initialization 3 s
    later; its file-system calls are [cleanup_calls], and it reports either
    the reset or the failed cleanup. *)
Lemma cleanup_runs env s :
  exists s',
    cleanup env s = (Returns tt, s')
    /\ timers s' = insert_timer ((clock s + 3000)%Z, InitializeClient) (timers s)
    /\ clock s' = clock s
    /\ calls s' = calls s ++ cleanup_calls (auth_exists s) (cache_exists s)
                                           (throws (rmSync env AuthDir))
    /\ sink s' = sink s ++ [if removal_throws env s then CleanupFailed else SessionReset]
    /\ (auth_exists s = false \/ rmSync env AuthDir = Returns tt -> auth_exists s' = false)
    /\ (auth_exists s && throws (rmSync env AuthDir) = false ->
        cache_exists s = false \/ rmSync env CacheDir = Returns tt ->
        cache_exists s' = false)
    /\ (auth_exists s && throws (rmSync env AuthDir) = true ->
        cache_exists s' = cache_exists s).
Proof.
  run_controller. unfold cleanup_calls, removal_throws.
  destruct (auth_exists s) eqn:Ha, (cache_exists s) eqn:Hc;
    destruct (rmSync env AuthDir) as [[]|e1] eqn:H1;
    destruct (rmSync env CacheDir) as [[]|e2] eqn:H2;
    cbn; rewrite ?Ha, ?Hc, ?H1, ?H2; cbn; rewrite ?H2; cbn; rewrite <- ?app_assoc; cbn;
    eexists; (split; [reflexivity|]); cbn; repeat split;
    try congruence; intuition congruence.
Qed.

(** C3 (as the code has it). When initialization throws an error whose
    message contains a corruption signature, the controller reports the
    corruption, calls destroy and swallows what it throws, and arms the
    cleanup for 1 s later, next to the timers that are already pending.
    When the cleanup timer fires, the cleanup checks the auth directory and
    removes it if present, then, unless that removal threw, does the same
    for the cache directory; a removal that throws is caught and reported
    with the failed-cleanup notice, otherwise the reset is reported; the
    cleanup throws nothing whether the directories exist or not, and arms
    the next initialization for 3 s after it ran, which is 4 s after the
    failure when no other timer was pending.  Any other initialization
    error is reported and arms the retry for 5 s later, without destroy or
    cleanup.  Events that handlers emit while an engine call is awaited
    show up in between. *)
Theorem session_repair_sequence env s e :
  initialize env = Throws e ->
  let out := initializeClient env s in
  fst out = Returns tt
  /\ clock (snd out) = clock s
  /\ auth_exists (snd out) = auth_exists s
  /\ cache_exists (snd out) = cache_exists s
  /\ ((exists sig pre post,
         sig ∈ signatures /\ or_default (message e) "" = pre +:+ sig +:+ post) ->
      calls (snd out) = calls s ++ [Initialize; Destroy]
      /\ timers (snd out) = insert_timer ((clock s + 1000)%Z, Cleanup) (timers s)
      /\ sink (snd out)
         = sink s ++ [Status "Initializing..."; Launching] ++ during_initialize env
                  ++ [Status "Init Error"; CriticalCorrupted] ++ during_destroy env
      /\ (timers s = [] ->
          forall env2, exists s2,
            fire_next env2 (snd out) = Some (Cleanup, (Returns tt, s2))
            /\ clock s2 = (clock s + 1000)%Z
            /\ timers s2 = [((clock s + 4000)%Z, InitializeClient)]
            /\ calls s2 = calls (snd out)
                          ++ cleanup_calls (auth_exists s) (cache_exists s)
                                           (throws (rmSync env2 AuthDir))
            /\ sink s2 = sink (snd out)
                         ++ [if removal_throws env2 s then CleanupFailed else SessionReset]
            /\ (auth_exists s = false \/ rmSync env2 AuthDir = Returns tt ->
                auth_exists s2 = false
                /\ (cache_exists s = false \/ rmSync env2 CacheDir = Returns tt ->
                    cache_exists s2 = false))))
  /\ (~ (exists sig pre post,
           sig ∈ signatures /\ or_default (message e) "" = pre +:+ sig +:+ post) ->
      calls (snd out) = calls s ++ [Initialize]
      /\ timers (snd out) = insert_timer ((clock s + 5000)%Z, InitializeClient) (timers s)
      /\ sink (snd out)
         = sink s ++ [Status "Initializing..."; Launching] ++ during_initialize env
                  ++ [Status "Init Error"; InitFailedRetrying]
      /\ currentStatus (snd out) = "Init Error")
  /\ (forall env2 s1 due rest,
        timers s1 = (due, Cleanup) :: rest ->
        exists s2,
          fire_next env2 s1 = Some (Cleanup, (Returns tt, s2))
          /\ clock s2 = Z.max (clock s1) due
          /\ timers s2 = insert_timer ((clock s2 + 3000)%Z, InitializeClient) rest
          /\ calls s2 = calls s1
                        ++ cleanup_calls (auth_exists s1) (cache_exists s1)
                                         (throws (rmSync env2 AuthDir))
          /\ sink s2 = sink s1
                       ++ [if removal_throws env2 s1 then CleanupFailed else SessionReset]
          /\ (auth_exists s1 = false \/ rmSync env2 AuthDir = Returns tt ->
              auth_exists s2 = false
              /\ (cache_exists s1 = false \/ rmSync env2 CacheDir = Returns tt ->
                  cache_exists s2 = false))).
Proof.
  intros He. cbn zeta. rewrite <- is_corruption_iff.
  assert (Hfire : forall env2 s1 due rest,
             timers s1 = (due, Cleanup) :: rest ->
             exists s2,
               fire_next env2 s1 = Some (Cleanup, (Returns tt, s2))
               /\ clock s2 = Z.max (clock s1) due
               /\ timers s2 = insert_timer ((clock s2 + 3000)%Z, InitializeClient) rest
               /\ calls s2 = calls s1
                             ++ cleanup_calls (auth_exists s1) (cache_exists s1)
                                              (throws (rmSync env2 AuthDir))
               /\ sink s2 = sink s1
                            ++ [if removal_throws env2 s1 then CleanupFailed else SessionReset]
               /\ (auth_exists s1 = false \/ rmSync env2 AuthDir = Returns tt ->
                   auth_exists s2 = false
                   /\ (cache_exists s1 = false \/ rmSync env2 CacheDir = Returns tt ->
                       cache_exists s2 = false))).
  { intros env2 s1 due rest Ht1. unfold fire_next. rewrite Ht1. cbn [run_task].
    match goal with |- context [cleanup env2 ?s0] =>
      destruct (cleanup_runs env2 s0)
        as (s2 & Hrun2 & Ht2 & Hc2 & Hcalls2 & Hsink2 & Hauth & Hcache & _)
    end.
    unfold removal_throws in *.
    cbn in Ht2, Hc2, Hcalls2, Hsink2, Hauth, Hcache.
    exists s2. rewrite Hrun2. split; [reflexivity|]. split; [exact Hc2|].
    split; [now rewrite Hc2|]. split; [exact Hcalls2|]. split; [exact Hsink2|].
    intros Hok. split; [now apply Hauth|]. apply Hcache.
    destruct Hok as [->| ->]; [reflexivity|]. cbn. apply andb_false_r. }
  assert (Hrun : exists s1,
             initializeClient env s = (Returns tt, s1)
             /\ clock s1 = clock s /\ auth_exists s1 = auth_exists s
             /\ cache_exists s1 = cache_exists s
             /\ (if is_corruption (or_default (message e) "")
                 then calls s1 = calls s ++ [Initialize; Destroy]
                      /\ timers s1 = insert_timer ((clock s + 1000)%Z, Cleanup) (timers s)
                      /\ sink s1
                         = sink s ++ [Status "Initializing..."; Launching]
                                  ++ during_initialize env
                                  ++ [Status "Init Error"; CriticalCorrupted]
                                  ++ during_destroy env
                 else calls s1 = calls s ++ [Initialize]
                      /\ timers s1
                         = insert_timer ((clock s + 5000)%Z, InitializeClient) (timers s)
                      /\ sink s1
                         = sink s ++ [Status "Initializing..."; Launching]
                                  ++ during_initialize env
                                  ++ [Status "Init Error"; InitFailedRetrying]
                      /\ currentStatus s1 = "Init Error")).
  { run_controller. rewrite meanwhile_run. cbn. rewrite He. cbn.
    destruct (is_corruption _); cbn;
      [rewrite meanwhile_run; cbn; destruct (destroy env); cbn|];
      eexists; (split; [reflexivity|]); cbn; rewrite <- ?app_assoc; repeat split. }
  destruct Hrun as (s1 & -> & Hc & Ha & Hk & Hcase). cbn [fst snd].
  split; [reflexivity|]. split; [exact Hc|]. split; [exact Ha|]. split; [exact Hk|].
  split; [|split; [|exact Hfire]].
  - intros Hsig. rewrite Hsig in Hcase. destruct Hcase as (Hcalls & Htimers & Hsink).
    split; [exact Hcalls|]. split; [exact Htimers|]. split; [exact Hsink|].
    intros Ht env2. rewrite Ht in Htimers. cbn in Htimers.
    destruct (Hfire env2 s1 _ _ Htimers) as (s2 & Hrun2 & Hc2 & Ht2 & Hcalls2 & Hsink2 & Hd2).
    unfold removal_throws in *. rewrite Ha, Hk in *.
    assert (Hmax : Z.max (clock s1) (clock s + 1000) = (clock s + 1000)%Z) by lia.
    rewrite Hmax in Hc2.
    exists s2. split; [exact Hrun2|]. split; [exact Hc2|].
    split; [rewrite Ht2, Hc2; cbn; do 2 f_equal; lia|].
    split; [exact Hcalls2|]. split; [exact Hsink2|exact Hd2].
  - intros Hsig. destruct (is_corruption _); [exfalso; now apply Hsig|]. exact Hcase.
Qed.

Lemma session_repair_sequence_witness :
  fst (initializeClient corrupted fresh) = Returns tt
  /\ timers (snd (initializeClient corrupted fresh)) = [(1000%Z, Cleanup)]
  /\ sink (snd (initializeClient corrupted fresh))
     = [Status "Initializing..."; Launching; Status "Init Error"; CriticalCorrupted].
Proof.
  pose proof (session_repair_sequence corrupted fresh protocol_error eq_refl) as H.
  cbn zeta in H. destruct H as (H1 & _ & _ & _ & H2 & _). split; [exact H1|].
  assert (Hsig : exists sig pre post,
             sig ∈ signatures
             /\ or_default (message protocol_error) "" = pre +:+ sig +:+ post).
  { exists "Protocol error", "", " (Runtime.callFunctionOn): Session closed.".
    split; [|reflexivity]. unfold signatures. rewrite !elem_of_cons. auto. }
  destruct (H2 Hsig) as (_ & Ht & Hs & _). split; [exact Ht|exact Hs].
Defined.

(** The claim C3 as stated fails when removing the auth directory throws:
    after a "Protocol error" at initialization, with both directories
    present and the auth directory locked, the cleanup is left through its
    catch clause, the cache directory is neither examined nor removed, and
    the next initialization is armed all the same. *)
Lemma cache_dir_untouched_when_auth_removal_throws :
  let s1 := snd (initializeClient corrupted fresh) in
  exists s2,
    fire_next auth_locked s1 = Some (Cleanup, (Returns tt, s2))
    /\ calls s2 = [Initialize; Destroy; ExistsSync AuthDir; RmSync AuthDir]
    /\ (ExistsSync CacheDir ∉ calls s2)
    /\ (RmSync CacheDir ∉ calls s2)
    /\ cache_exists s2 = true
    /\ timers s2 = [(4000%Z, InitializeClient)].
Proof.
  cbn zeta. eexists. split; [vm_compute; reflexivity|]. cbn.
  repeat split; rewrite ?not_elem_of_cons, ?elem_of_nil; intuition discriminate.
Qed.

End LifecycleFacts.

Section DirectoryFacts.
Import Js Directory.

Ltac run_fetch :=
  unfold fetchGroups, getChats, setTimeout_fetchGroups, emit, try_catch, lift,
    modify, gets, mbind, M_bind, mret, M_ret;
  cbn -[Nat.ltb].

(** What the n-th attempt arms: a re-check while n < 5 after groups were
    found, a retry while n < 20 after an empty list or a failed fetch. *)
Lemma fetchGroups_step (answer : Outcome (list ChatInfo)) (s : State) :
  exists s',
    fetchGroups answer s = (Returns tt, s')
    /\ attempts s' = S (attempts s)
    /\ fetches s' = S (fetches s)
    /\ match answer with
       | Returns chats =>
           if decide (groups_of chats = []) then
             availableGroups s' = availableGroups s
             /\ timers s' = timers s ++ (if (S (attempts s) <? 20)%nat then [5000%Z] else [])
           else
             availableGroups s' = groups_of chats
             /\ (exists lines, sink s' = sink s ++ Groups (groups_of chats) :: lines)
             /\ timers s' = timers s ++ (if (S (attempts s) <? 5)%nat then [5000%Z] else [])
       | Throws _ =>
           availableGroups s' = availableGroups s
           /\ timers s' = timers s ++ (if (S (attempts s) <? 20)%nat then [5000%Z] else [])
       end.
Proof.
  run_fetch. destruct answer as [chats|e]; cbn -[Nat.ltb].
  - destruct (decide (groups_of chats = [])) as [Hg|Hg].
    + rewrite Hg. cbn -[Nat.ltb].
      destruct (S (attempts s) <? 20)%nat; cbn; eexists; (split; [reflexivity|]); cbn;
        rewrite ?app_nil_r; repeat split.
    + destruct (groups_of chats) as [|g gs] eqn:Hgs; [contradiction|]. cbn -[Nat.ltb].
      destruct (S (attempts s) <? 5)%nat; cbn; eexists; (split; [reflexivity|]); cbn;
        rewrite ?app_nil_r, <- ?app_assoc; repeat split; eexists; reflexivity.
  - destruct (S (attempts s) <? 20)%nat; cbn; eexists; (split; [reflexivity|]); cbn;
      rewrite ?app_nil_r; repeat split.
Qed.

(** The loop stops within the budget of 20 calls, whatever the engine
    answers. *)
Lemma run_bounded oracle (fuel : nat) (s : State) :
  timers s = [] ->
  (attempts s < 20)%nat ->
  (20 <= attempts s + fuel)%nat ->
  exists s',
    run oracle fuel s = (Returns tt, s')
    /\ timers s' = []
    /\ (attempts s < attempts s' <= 20)%nat
    /\ (fetches s' + attempts s = attempts s' + fetches s)%nat.
Proof.
  revert s. induction fuel as [|fuel IH]; intros s Ht Hlt Hfuel; [lia|].
  cbn [run].
  destruct (fetchGroups_step (oracle (S (attempts s))) s) as (s1 & -> & Ha & Hf & Hcase).
  assert (Hmore : exists more, timers s1 = [] ++ more
                    /\ (more = [] \/ (more = [5000%Z] /\ S (attempts s) < 20)%nat)).
  { rewrite Ht in Hcase. destruct (oracle _) as [chats|e].
    - destruct (decide (groups_of chats = [])).
      + destruct Hcase as [_ ->]. destruct (Nat.ltb_spec (S (attempts s)) 20);
          eexists; split; try reflexivity; auto.
      + destruct Hcase as (_ & _ & ->). destruct (Nat.ltb_spec (S (attempts s)) 5);
          eexists; split; try reflexivity; [right; split; [reflexivity|lia]|auto].
    - destruct Hcase as [_ ->]. destruct (Nat.ltb_spec (S (attempts s)) 20);
        eexists; split; try reflexivity; auto. }
  destruct Hmore as (more & Hm & [->|[-> Hlt1]]); cbn in Hm; rewrite Hm.
  - exists s1. repeat split; try assumption; lia.
  - match goal with |- context [run oracle fuel ?s0] =>
      destruct (IH s0 eq_refl) as (s' & Hrun & Ht' & Ha' & Hf')
    end; cbn; try lia.
    cbn in Ha', Hf'. exists s'. repeat split; try assumption; lia.
Qed.

Lemma run_finds_groups oracle (fuel : nat) (s : State) :
  (forall n, finds_groups (oracle n)) ->
  timers s = [] ->
  (attempts s < 5)%nat ->
  (5 <= attempts s + fuel)%nat ->
  attempts (snd (run oracle fuel s)) = 5%nat.
Proof.
  intros Hall. revert s. induction fuel as [|fuel IH]; intros s Ht Hlt Hfuel; [lia|].
  cbn [run].
  destruct (fetchGroups_step (oracle (S (attempts s))) s) as (s1 & -> & Ha & Hf & Hcase).
  destruct (Hall (S (attempts s))) as (chats & Ho & Hne). rewrite Ho in Hcase.
  destruct (decide (groups_of chats = [])); [contradiction|].
  destruct Hcase as (_ & _ & Htm). rewrite Ht in Htm. cbn [app] in Htm. rewrite Htm.
  destruct (Nat.ltb_spec (S (attempts s)) 5); cbn -[run].
  - rewrite IH; cbn; try reflexivity; lia.
  - lia.
Qed.

Lemma run_finds_nothing oracle (fuel : nat) (s : State) :
  (forall n, finds_nothing (oracle n)) ->
  timers s = [] ->
  (attempts s < 20)%nat ->
  (20 <= attempts s + fuel)%nat ->
  attempts (snd (run oracle fuel s)) = 20%nat.
Proof.
  intros Hall. revert s. induction fuel as [|fuel IH]; intros s Ht Hlt Hfuel; [lia|].
  cbn [run].
  destruct (fetchGroups_step (oracle (S (attempts s))) s) as (s1 & -> & Ha & Hf & Hcase).
  specialize (Hall (S (attempts s))). unfold finds_nothing in Hall.
  assert (Htm : timers s1 = if (S (attempts s) <? 20)%nat then [5000%Z] else []).
  { rewrite Ht in Hcase. destruct (oracle _) as [chats|e].
    - destruct (decide (groups_of chats = [])); [|contradiction]. now destruct Hcase.
    - now destruct Hcase. }
  rewrite Htm. destruct (Nat.ltb_spec (S (attempts s)) 20); cbn -[run].
  - rewrite IH; cbn; try reflexivity; lia.
  - lia.
Qed.

(** The groups of a chat list are its group chats, each with its id and
    name. *)
Lemma elem_of_groups_of (chats : list ChatInfo) (g : GroupRecord) :
  g ∈ groups_of chats
  <-> exists c, c ∈ chats /\ isGroup c = true /\ g = mkGroup (chat_id c) (chat_name c).
Proof.
  unfold groups_of. rewrite list_elem_of_In, in_map_iff. split.
  - intros (c & <- & Hc). apply list_elem_of_In, list_elem_of_filter in Hc as [Hg Hc].
    now exists c.
  - intros (c & Hc & Hg & ->). exists c. split; [reflexivity|].
    apply list_elem_of_In, list_elem_of_filter. auto.
Qed.

(** What one call tells the dashboard. *)
Lemma fetchGroups_sink (answer : Outcome (list ChatInfo)) (s : State) :
  sink (snd (fetchGroups answer s))
  = sink s ++ match answer with
              | Returns chats =>
                  if decide (groups_of chats = []) then
                    Syncing (length chats)
                    :: (if (S (attempts s) <? 20)%nat then [] else [GiveUp])
                  else [Groups (groups_of chats); Loaded (length (groups_of chats))]
              | Throws _ => [ErrorReading]
              end.
Proof.
  run_fetch. destruct answer as [chats|e]; cbn -[Nat.ltb].
  - destruct (decide (groups_of chats = [])) as [Hg|Hg].
    + rewrite Hg. cbn -[Nat.ltb].
      destruct (S (attempts s) <? 20)%nat; cbn; rewrite <- ?app_assoc; reflexivity.
    + destruct (groups_of chats) as [|g gs] eqn:Hgs; [contradiction|]. cbn -[Nat.ltb].
      destruct (S (attempts s) <? 5)%nat; cbn; rewrite <- ?app_assoc; reflexivity.
  - destruct (S (attempts s) <? 20)%nat; cbn; reflexivity.
Qed.

(** When every fetch finds groups, the directory at the end is the group
    list of the fifth answer, and it was published. *)
Lemma run_publishes_fifth oracle (fuel : nat) (s : State) :
  (forall n, finds_groups (oracle n)) ->
  timers s = [] ->
  (attempts s < 5)%nat ->
  (5 <= attempts s + fuel)%nat ->
  exists chats,
    oracle 5%nat = Returns chats
    /\ availableGroups (snd (run oracle fuel s)) = groups_of chats
    /\ Groups (groups_of chats) ∈ sink (snd (run oracle fuel s)).
Proof.
  intros Hall. revert s. induction fuel as [|fuel IH]; intros s Ht Hlt Hfuel; [lia|].
  cbn [run].
  pose proof (fetchGroups_sink (oracle (S (attempts s))) s) as Hsink.
  destruct (fetchGroups_step (oracle (S (attempts s))) s) as (s1 & Hrun & Ha & Hf & Hcase).
  rewrite Hrun in Hsink |- *. cbn [snd] in Hsink.
  destruct (Hall (S (attempts s))) as (chats & Ho & Hne). rewrite Ho in Hcase, Hsink.
  destruct (decide (groups_of chats = [])); [contradiction|].
  destruct Hcase as (Hav & _ & Htm). rewrite Ht in Htm. cbn [app] in Htm. rewrite Htm.
  destruct (Nat.ltb_spec (S (attempts s)) 5); cbn -[run].
  - apply IH; cbn; try reflexivity; lia.
  - assert (Hfive : S (attempts s) = 5%nat) by lia. rewrite Hfive in Ho.
    exists chats. split; [exact Ho|]. split; [exact Hav|].
    rewrite Hsink. apply elem_of_app. right. now left.
Qed.

(** When no fetch finds a group, the directory is left as it was. *)
Lemma run_keeps_directory oracle (fuel : nat) (s : State) :
  (forall n, finds_nothing (oracle n)) ->
  timers s = [] ->
  availableGroups (snd (run oracle fuel s)) = availableGroups s.
Proof.
  intros Hall. revert s. induction fuel as [|fuel IH]; intros s Ht; [reflexivity|].
  cbn [run].
  destruct (fetchGroups_step (oracle (S (attempts s))) s) as (s1 & -> & Ha & Hf & Hcase).
  specialize (Hall (S (attempts s))). unfold finds_nothing in Hall.
  assert (Hs1 : availableGroups s1 = availableGroups s
                /\ timers s1 = if (S (attempts s) <? 20)%nat then [5000%Z] else []).
  { rewrite Ht in Hcase. destruct (oracle _) as [chats|e].
    - destruct (decide (groups_of chats = [])); [|contradiction]. exact Hcase.
    - exact Hcase. }
  destruct Hs1 as [Hav Htm]. rewrite Htm.
  destruct (S (attempts s) <? 20)%nat; cbn -[run]; [|exact Hav].
  rewrite IH by reflexivity. exact Hav.
Qed.

(** C6. Every call of [fetchGroups] counts as one attempt, fetches the chat
    list once, never throws, and arms at most one timer, of 5000 ms.  The
    chat list is filtered to its group chats, each kept with its id and
    name, in order.  A non-empty group list replaces the directory and is
    published, followed by the count, and a re-check is armed only while
    fewer than 5 attempts were made; after an empty list or a failed fetch
    the directory is kept, the scan or the error is reported, and a retry
    is armed only while fewer than 20 attempts were made, the give-up
    notice following the twentieth empty list.  The loop started by [ready]
    therefore ends after at most 20 attempts with no timer pending; it
    makes exactly 5 when every fetch finds groups, leaving the group list
    of the fifth fetch published, and exactly 20 when none does, leaving
    the directory as it was. *)
Theorem refresh_loop_is_bounded :
  (forall chats g,
      g ∈ groups_of chats
      <-> exists c, c ∈ chats /\ isGroup c = true /\ g = mkGroup (chat_id c) (chat_name c))
  /\ groups_of [mkChatInfo true "1@g.us" "Family"; mkChatInfo false "2@c.us" "Ann";
                mkChatInfo true "3@g.us" "Work"]
     = [mkGroup "1@g.us" "Family"; mkGroup "3@g.us" "Work"]
  /\ (forall answer s, exists s',
      fetchGroups answer s = (Returns tt, s')
      /\ attempts s' = S (attempts s)
      /\ fetches s' = S (fetches s)
      /\ (exists more, timers s' = timers s ++ more /\ (more = [] \/ more = [5000%Z]))
      /\ (forall chats, answer = Returns chats -> groups_of chats <> [] ->
          availableGroups s' = groups_of chats
          /\ sink s' = sink s ++ [Groups (groups_of chats); Loaded (length (groups_of chats))]
          /\ (timers s' = timers s ++ [5000%Z] <-> (attempts s' < 5)%nat))
      /\ (finds_nothing answer ->
          availableGroups s' = availableGroups s
          /\ sink s' = sink s ++ match answer with
                                 | Returns chats =>
                                     Syncing (length chats)
                                     :: (if (attempts s' <? 20)%nat then [] else [GiveUp])
                                 | Throws _ => [ErrorReading]
                                 end
          /\ (timers s' = timers s ++ [5000%Z] <-> (attempts s' < 20)%nat)))
  /\ (forall oracle groups sink fuel, (20 <= fuel)%nat ->
      exists s',
        run oracle fuel (on_ready groups sink) = (Returns tt, s')
        /\ timers s' = []
        /\ (1 <= attempts s' <= 20)%nat
        /\ fetches s' = attempts s'
        /\ ((forall n, finds_groups (oracle n)) ->
            attempts s' = 5%nat
            /\ exists chats,
                 oracle 5%nat = Returns chats
                 /\ availableGroups s' = groups_of chats
                 /\ Groups (groups_of chats) ∈ Directory.sink s')
        /\ ((forall n, finds_nothing (oracle n)) ->
            attempts s' = 20%nat /\ availableGroups s' = groups)).
Proof.
  split; [exact elem_of_groups_of|]. split; [reflexivity|]. split.
  - intros answer s.
    pose proof (fetchGroups_sink answer s) as Hsink.
    destruct (fetchGroups_step answer s) as (s' & Hrun & Ha & Hf & Hcase).
    rewrite Hrun in Hsink. cbn [snd] in Hsink.
    assert (Hiff : forall (b : nat) (l : list Z),
               l ++ (if (S (attempts s) <? b)%nat then [5000%Z] else []) = l ++ [5000%Z]
               <-> (S (attempts s) < b)%nat).
    { intros b l. destruct (Nat.ltb_spec (S (attempts s)) b); split; try lia; auto.
      intros H'. apply app_inv_head in H'. discriminate. }
    exists s'. split; [exact Hrun|]. split; [exact Ha|]. split; [exact Hf|].
    rewrite Ha. split; [|split].
    + destruct answer as [chats|e]; [destruct (decide (groups_of chats = []))|];
        [destruct Hcase as [_ ->]|destruct Hcase as (_ & _ & ->)|destruct Hcase as [_ ->]];
        eexists; (split; [reflexivity|]);
        match goal with |- context [if ?c then _ else _] => destruct c end; auto.
    + intros chats -> Hne. destruct (decide (groups_of chats = [])); [contradiction|].
      destruct Hcase as (Hav & _ & Ht). split; [exact Hav|]. split; [exact Hsink|].
      rewrite Ht. apply Hiff.
    + intros Hn. unfold finds_nothing in Hn. destruct answer as [chats|e].
      * destruct (decide (groups_of chats = [])); [|contradiction].
        destruct Hcase as [Hav Ht]. split; [exact Hav|]. split; [exact Hsink|].
        rewrite Ht. apply Hiff.
      * destruct Hcase as [Hav Ht]. split; [exact Hav|]. split; [exact Hsink|].
        rewrite Ht. apply Hiff.
  - intros oracle groups sink fuel Hfuel.
    destruct (run_bounded oracle fuel (on_ready groups sink) eq_refl)
      as (s' & Hrun & Ht & Ha & Hf); cbn; try lia.
    cbn in Ha, Hf. exists s'. split; [exact Hrun|]. split; [exact Ht|].
    split; [lia|]. split; [lia|]. split; intros Hall.
    + pose proof (run_finds_groups oracle fuel (on_ready groups sink) Hall eq_refl) as H.
      pose proof (run_publishes_fifth oracle fuel (on_ready groups sink) Hall eq_refl) as H5.
      rewrite Hrun in H, H5. split; [apply H; cbn; lia|]. apply H5; cbn; lia.
    + pose proof (run_finds_nothing oracle fuel (on_ready groups sink) Hall eq_refl) as H.
      pose proof (run_keeps_directory oracle fuel (on_ready groups sink) Hall eq_refl) as Hk.
      rewrite Hrun in H, Hk. split; [apply H; cbn; lia|exact Hk].
Qed.

Lemma refresh_loop_is_bounded_witness :
  exists s',
    run (fun _ => Returns [mkChatInfo true "120363@g.us" "Family";
                           mkChatInfo false "4915@c.us" "Ann"])
        20 (on_ready [] []) = (Returns tt, s')
    /\ timers s' = []
    /\ attempts s' = 5%nat
    /\ availableGroups s' = [mkGroup "120363@g.us" "Family"].
Proof.
  destruct (proj2 (proj2 (proj2 refresh_loop_is_bounded))
              (fun _ => Returns [mkChatInfo true "120363@g.us" "Family";
                                 mkChatInfo false "4915@c.us" "Ann"])
              [] [] 20%nat ltac:(lia))
    as (s' & H1 & H2 & _ & _ & H5 & _).
  assert (Hall : forall n : nat,
             finds_groups ((fun _ => Returns [mkChatInfo true "120363@g.us" "Family";
                                              mkChatInfo false "4915@c.us" "Ann"]) n)).
  { intros _. eexists. split; [reflexivity|]. discriminate. }
  destruct (H5 Hall) as (Ha & chats & [= <-] & Hav & _).
  exists s'. split; [exact H1|]. split; [exact H2|]. split; [exact Ha|exact Hav].
Defined.

End DirectoryFacts.

(** ** Further properties of the message handler *)

Section HandlerFacts.
Import Js JsString Routing Delivery Trace.

Ltac run_attempt :=
  unfold deliver, native_upload, try_catch, emit, log, call, lift, modify, gets, throw,
    ensure_publicDir, writeFileSync, statSync, setTimeout_unlink,
    mbind, M_bind, mret, M_ret;
  cbn.


(** The engine calls of one pass through the loop body have one of the four
    shapes of [one_attempt]. *)
Lemma deliver_shape env msg type targetId w :
  exists w' cs,
    deliver env msg type targetId w = (Returns tt, w')
    /\ attempted w' = attempted w
    /\ calls w' = calls w ++ cs
    /\ one_attempt msg type targetId cs.
Proof.
  unfold one_attempt, options_of. run_attempt.
  destruct (hasMedia msg); cbn.
  2: { destruct (forward env); cbn; do 2 eexists; do 3 (split; [reflexivity|]);
       left; split; reflexivity. }
  destruct (download env) as [media|e]; cbn.
  2: { destruct (forward env); cbn; rewrite <- !app_assoc; do 2 eexists;
       do 3 (split; [reflexivity|]); right; (split; [reflexivity|left; reflexivity]). }
  destruct (has_data media) as [m|]; cbn.
  2: { destruct (forward env); cbn; rewrite <- !app_assoc; do 2 eexists;
       do 3 (split; [reflexivity|]); right; (split; [reflexivity|left; reflexivity]). }
  destruct (Ext.ext_of _) as [ext|e]; cbn.
  2: { destruct (forward env); cbn; rewrite <- !app_assoc; do 2 eexists;
       do 3 (split; [reflexivity|]); right; (split; [reflexivity|left; reflexivity]). }
  destruct (publicDir_exists w); [|destruct (mkdir env) as [[]|e]]; cbn.
  3: { destruct (forward env); cbn; rewrite <- !app_assoc; do 2 eexists;
       do 3 (split; [reflexivity|]); right; (split; [reflexivity|left; reflexivity]). }
  all: destruct (write env) as [[]|e]; cbn.
  2, 4: destruct (forward env); cbn; rewrite <- !app_assoc; do 2 eexists;
       do 3 (split; [reflexivity|]); right; (split; [reflexivity|left; reflexivity]).
  all: rewrite lookup_insert_eq; cbn.
  all: destruct (written env =? 0)%N; cbn.
  1, 3: destruct (forward env); cbn; rewrite <- !app_assoc; do 2 eexists;
    do 3 (split; [reflexivity|]); right; (split; [reflexivity|left; reflexivity]).
  all: destruct (send env) as [[]|e]; cbn.
  1, 3: rewrite <- !app_assoc; do 2 eexists; do 3 (split; [reflexivity|]);
    right; (split; [reflexivity|]); right; do 2 eexists; left; reflexivity.
  all: destruct (forward env); cbn; rewrite <- !app_assoc; do 2 eexists;
      do 3 (split; [reflexivity|]);
      right; (split; [reflexivity|]); right; do 2 eexists; right; reflexivity.
Qed.

Lemma targets_loop_shape oracle chat msg type (ts : list GroupId) w :
  exists w' css,
    for_of ts (fun targetId =>
      if String.eqb targetId (chat_id chat) then mret tt
      else env ← next_attempt oracle ;
           enter_attempt targetId ;;
           deliver env msg type targetId) w = (Returns tt, w')
    /\ attempted w' = attempted w ++ filter (fun t => t <> chat_id chat) ts
    /\ calls w' = calls w ++ concat css
    /\ Forall2 (one_attempt msg type) (filter (fun t => t <> chat_id chat) ts) css.
Proof.
  revert w. induction ts as [|t ts IH]; intros w.
  - exists w, []. cbn. rewrite !app_nil_r. repeat split. constructor.
  - cbn [for_of]. unfold mbind at 1, M_bind at 1.
    destruct (String.eqb_spec t (chat_id chat)) as [Heq|Hne].
    + rewrite filter_cons_False by (intros H; now apply H).
      cbn. destruct (IH w) as (w' & css & Hrun & Ha & Hc & Hr).
      exists w', css. auto.
    + rewrite filter_cons_True by assumption.
      unfold next_attempt, gets, enter_attempt, modify, mbind, M_bind. cbn.
      match goal with |- context [deliver ?e msg type t ?w0] =>
        destruct (deliver_shape e msg type t w0) as (w1 & cs1 & Hrun1 & Ha1 & Hc1 & Hr1)
      end.
      rewrite Hrun1. cbn in Ha1, Hc1.
      destruct (IH w1) as (w' & css & Hrun & Ha & Hc & Hr).
      exists w', (cs1 :: css).
      split; [exact Hrun|]. split; [|split].
      * rewrite Ha, Ha1, <- app_assoc. reflexivity.
      * rewrite Hc, Hc1, <- app_assoc. reflexivity.
      * now constructor.
Qed.

Lemma deliver_all_shape oracle chat msg type (rs : list Rule) w :
  exists o w' css,
    deliver_all oracle chat msg type rs w = (o, w')
    /\ attempted w'
       = attempted w ++ flat_map (fun r => filter (fun t => t <> chat_id chat) (targets r))
                                 (iterable_prefix rs)
    /\ calls w' = calls w ++ concat css
    /\ Forall2 (one_attempt msg type)
         (flat_map (fun r => filter (fun t => t <> chat_id chat) (targets r))
                   (iterable_prefix rs)) css.
Proof.
  revert w. induction rs as [|r rs IH]; intros w.
  - exists (Returns tt), w, []. cbn. rewrite !app_nil_r. repeat split. constructor.
  - rewrite deliver_all_cons. cbn [iterable_prefix].
    destruct (targets_value r) as [ts|] eqn:Hts.
    + assert (Htr : targets r = ts) by (unfold targets; now rewrite Hts).
      cbn [flat_map]. rewrite Htr.
      destruct (targets_loop_shape oracle chat msg type ts w)
        as (w1 & css1 & Hrun1 & Ha1 & Hc1 & Hr1).
      rewrite Hrun1.
      destruct (IH w1) as (o & w' & css & Hrun & Ha & Hc & Hr).
      exists o, w', (css1 ++ css). split; [exact Hrun|]. split; [|split].
      * rewrite Ha, Ha1, <- app_assoc. reflexivity.
      * rewrite Hc, Hc1, concat_app, <- app_assoc. reflexivity.
      * now apply Forall2_app.
    + do 2 eexists. exists []. split; [reflexivity|]. cbn. rewrite !app_nil_r.
      repeat split. constructor.
Qed.

(** The handler as a whole: it returns normally; either it attempts
    nothing and calls nothing, or the chat is a group, the message is media,
    and the attempts are the pairs of the matching rules the loops get
    to. *)
Lemma handler_shape oracle rules getChat msg w :
  exists w' ps css,
    on_message_create oracle rules getChat msg w = (Returns tt, w')
    /\ attempted w' = attempted w ++ ps
    /\ calls w' = calls w ++ concat css
    /\ Forall2 (one_attempt msg (msg_type msg)) ps css
    /\ (ps = []
        \/ exists chat,
             getChat = Returns chat
             /\ Classifier.isMedia (msg_type msg) (Classifier.mime_of (msg_mimetype msg)) = true
             /\ ps = visited (chat_id chat) rules).
Proof.
  assert (Hnone : forall w0 : World,
             attempted w0 = attempted w -> calls w0 = calls w ->
             attempted w0 = attempted w ++ []
             /\ calls w0 = calls w ++ concat []
             /\ Forall2 (one_attempt msg (msg_type msg)) [] []
             /\ (@nil GroupId = [] \/ exists chat,
                   getChat = Returns chat
                   /\ Classifier.isMedia (msg_type msg)
                        (Classifier.mime_of (msg_mimetype msg)) = true
                   /\ @nil GroupId = visited (chat_id chat) rules)).
  { intros w0 Ha Hc. cbn. rewrite !app_nil_r. repeat split; auto. }
  unfold on_message_create, try_catch, lift, mbind at 1, M_bind at 1.
  destruct getChat as [chat|e].
  2: { unfold log, modify. cbn. do 3 eexists. split; [reflexivity|]. now apply Hnone. }
  destruct (isGroup chat); cbn [negb].
  2: { unfold mret, M_ret. do 3 eexists. split; [reflexivity|]. now apply Hnone. }
  destruct (0 <? length (validRules (chat_id chat) rules))%nat.
  2: { unfold log, emit, modify, mbind, M_bind, mret, M_ret. cbn.
       do 3 eexists. split; [reflexivity|]. now apply Hnone. }
  destruct (Classifier.isMedia _ _) eqn:Hm.
  2: { unfold log, emit, modify, mbind, M_bind, mret, M_ret.
       destruct (_ && _); destruct (String.eqb (msg_type msg) "chat"); cbn;
         do 3 eexists; (split; [reflexivity|]); now apply Hnone. }
  unfold log, emit, modify, mbind, M_bind, mret, M_ret.
  destruct (_ && _); cbn;
    match goal with |- context [deliver_all _ _ _ ?ty ?rs ?w0] =>
      destruct (deliver_all_shape oracle chat msg ty rs w0)
        as (o & w' & css & Hrun & Ha & Hc & Hr)
    end;
    rewrite Hrun; destruct o as [[]|e]; cbn;
    eexists _, (visited (chat_id chat) rules), css;
    (split; [reflexivity|]); (split; [exact Ha|]); (split; [exact Hc|]);
    (split; [exact Hr|]); right; exists chat; auto.
Qed.

(** X1. The handler never lets an exception escape: whatever [getChat], the
    download, the send and the forward do at any attempt, it returns
    normally. *)
Theorem handler_never_throws oracle rules getChat msg w :
  fst (on_message_create oracle rules getChat msg w) = Returns tt.
Proof.
  destruct (handler_shape oracle rules getChat msg w) as (w' & ps & css & -> & _).
  reflexivity.
Qed.

Lemma elem_of_pairs (chatId t : GroupId) (rules : list Rule) :
  t ∈ pairs chatId rules
  <-> exists r, r ∈ rules /\ source r = chatId /\ t ∈ targets r /\ t <> chatId.
Proof.
  unfold pairs, validRules. rewrite list_elem_of_In, in_flat_map. split.
  - intros (r & Hr & Ht). apply list_elem_of_In, list_elem_of_filter in Hr as [Hs Hr].
    apply list_elem_of_In, list_elem_of_filter in Ht as [Hne Ht]. now exists r.
  - intros (r & Hr & Hs & Ht & Hne). exists r.
    split; apply list_elem_of_In, list_elem_of_filter; auto.
Qed.

Lemma iterable_prefix_subseteq (rs : list Rule) (r : Rule) :
  r ∈ iterable_prefix rs -> r ∈ rs.
Proof.
  induction rs as [|r' rs IH]; cbn; [auto|].
  destruct (targets_value r'); [|intros H; now apply elem_of_nil in H].
  rewrite !elem_of_cons. intros [->|H]; auto.
Qed.

Lemma visited_pairs (chatId t : GroupId) (rules : list Rule) :
  t ∈ visited chatId rules -> t ∈ pairs chatId rules.
Proof.
  unfold visited, pairs. rewrite !list_elem_of_In, !in_flat_map.
  intros (r & Hr & Ht). exists r. split; [|exact Ht].
  now apply list_elem_of_In, iterable_prefix_subseteq, list_elem_of_In.
Qed.

(** X2. Every target for which the handler enters a delivery attempt is
    listed in a rule whose source is the chat of the message, and is never
    that chat itself; a rule whose targets are only its own source causes no
    attempt. *)
Theorem attempts_only_for_rule_targets oracle rules getChat msg w :
  exists ps,
    attempted (snd (on_message_create oracle rules getChat msg w)) = attempted w ++ ps
    /\ forall t, t ∈ ps ->
         exists chat r,
           getChat = Returns chat /\ r ∈ rules /\ source r = chat_id chat
           /\ t ∈ targets r /\ t <> chat_id chat.
Proof.
  destruct (handler_shape oracle rules getChat msg w)
    as (w' & ps & css & -> & Ha & _ & _ & Hps).
  exists ps. split; [exact Ha|]. intros t Ht.
  destruct Hps as [->|(chat & Hg & _ & ->)]; [now apply elem_of_nil in Ht|].
  apply visited_pairs, elem_of_pairs in Ht as (r & Hr & Hs & Ht & Hne). now exists chat, r.
Qed.

Lemma media_type_is_not_audio (type mime : string) :
  Classifier.isMedia type mime = true ->
  String.eqb type "ptt" || String.eqb type "audio" = false.
Proof.
  intros Hm. destruct (String.eqb_spec type "ptt") as [->|_];
    [|destruct (String.eqb_spec type "audio") as [->|_]];
    [exfalso; revert Hm; vm_compute; discriminate
    |exfalso; revert Hm; vm_compute; discriminate
    |reflexivity].
Qed.

(** X3. No send made by the handler asks for voice-note or document
    semantics: a message of type audio or ptt never passes the classifier,
    so [sendAudioAsVoice] is false in every [sendMessage] call, as is
    [sendMediaAsDocument]. *)
Theorem sends_never_as_voice_or_document oracle rules getChat msg w :
  exists cs,
    calls (snd (on_message_create oracle rules getChat msg w)) = calls w ++ cs
    /\ forall c, c ∈ cs -> voice_or_document c = false.
Proof.
  destruct (handler_shape oracle rules getChat msg w)
    as (w' & ps & css & -> & _ & Hc & Hr & Hps).
  exists (concat css). split; [exact Hc|]. intros c Hin.
  destruct Hps as [->|(chat & _ & Hm & _)].
  - apply Forall2_nil_inv_l in Hr. subst css. now apply elem_of_nil in Hin.
  - apply media_type_is_not_audio in Hm.
    clear Hc. induction Hr as [|t cs ts css Ht Hr IH]; cbn in Hin;
      [now apply elem_of_nil in Hin|].
    apply elem_of_app in Hin as [Hin|Hin]; [|now apply IH].
    unfold one_attempt, options_of in Ht. rewrite Hm in Ht.
    destruct Ht as [[_ ->]|[_ [->|(f & m & [->| ->])]]];
      repeat (apply elem_of_cons in Hin as [->|Hin]; [reflexivity|]);
      now apply elem_of_nil in Hin.
Qed.

Lemma downloads_app (a b : list EngineCall) :
  downloads (a ++ b) = (downloads a + downloads b)%nat.
Proof. unfold downloads. now rewrite List.filter_app, length_app. Qed.

(** X4. The payload is downloaded once per delivery attempt, not once per
    message: the number of [downloadMedia] calls equals the number of
    attempts entered when the message has media, and is zero when it has
    none. *)
Theorem one_download_per_attempt oracle rules getChat msg w :
  exists ps cs,
    attempted (snd (on_message_create oracle rules getChat msg w)) = attempted w ++ ps
    /\ calls (snd (on_message_create oracle rules getChat msg w)) = calls w ++ cs
    /\ downloads cs = if hasMedia msg then length ps else 0%nat.
Proof.
  destruct (handler_shape oracle rules getChat msg w)
    as (w' & ps & css & -> & Ha & Hc & Hr & _).
  exists ps, (concat css). split; [exact Ha|]. split; [exact Hc|].
  clear Ha Hc. induction Hr as [|t cs ts css Ht Hr IH]; cbn [concat length].
  - now destruct (hasMedia msg).
  - rewrite downloads_app, IH. unfold one_attempt in Ht.
    destruct Ht as [[Hh ->]|[Hh [->|(f & m & [->| ->])]]]; rewrite Hh; reflexivity.
Qed.

(** X5. A message that is not in a group, whose chat cannot be fetched, or
    whose group is the source of no rule is dropped without any effect on
    the engine, the file system or the timers; the Event Sink gets the
    debug line when the chat is a group and nothing otherwise. *)
Theorem unrouted_messages_are_dropped oracle rules getChat msg w :
  (forall chat, getChat = Returns chat ->
     isGroup chat = false \/ validRules (chat_id chat) rules = []) ->
  let w' := snd (on_message_create oracle rules getChat msg w) in
  files w' = files w /\ timers w' = timers w
  /\ calls w' = calls w /\ attempted w' = attempted w
  /\ sink w' = sink w ++ match getChat with
                        | Returns chat =>
                            if isGroup chat
                            then [DebugSaw (msg_type msg) (chat_name chat)] else []
                        | Throws _ => []
                        end.
Proof.
  intros H. cbn zeta.
  assert (Hrun : exists w',
             on_message_create oracle rules getChat msg w = (Returns tt, w')
             /\ files w' = files w /\ timers w' = timers w
             /\ calls w' = calls w /\ attempted w' = attempted w
             /\ sink w' = sink w ++ match getChat with
                                   | Returns chat =>
                                       if isGroup chat
                                       then [DebugSaw (msg_type msg) (chat_name chat)]
                                       else []
                                   | Throws _ => []
                                   end).
  { unfold on_message_create, try_catch, lift, mbind at 1, M_bind at 1.
    destruct getChat as [chat|e].
    2: { unfold log, modify. cbn. eexists. split; [reflexivity|]. cbn.
         rewrite app_nil_r. repeat split. }
    destruct (H chat eq_refl) as [Hg|Hv].
    - rewrite Hg. cbn. eexists. split; [reflexivity|]. rewrite app_nil_r. repeat split.
    - rewrite Hv. destruct (isGroup chat); cbn; eexists; (split; [reflexivity|]); cbn;
        rewrite ?app_nil_r; repeat split. }
  destruct Hrun as (w' & -> & Hrest). exact Hrest.
Qed.

Lemma unrouted_messages_are_dropped_witness :
  sink (snd (on_message_create (fun _ => all_fine) [mkRule "A" ["B"] None]
               (Returns (mkChat "C" "Colleagues" true)) photo initial))
  = [DebugSaw "image" "Colleagues"].
Proof.
  pose proof (unrouted_messages_are_dropped (fun _ => all_fine) [mkRule "A" ["B"] None]
                (Returns (mkChat "C" "Colleagues" true)) photo initial) as H.
  cbn zeta in H. apply H. intros chat [= <-]. right. reflexivity.
Defined.



(** X7. Whenever stage 1 does not run to its end (the message has no media,
    the download throws or yields nothing, the extension mapping throws,
    the write is refused, the file is empty, or the send throws) the original message is
    forwarded to the target as the last engine call of the attempt, and no
    native-send success is reported. *)
Theorem forward_whenever_native_fails env msg type targetId w :
  ~ (hasMedia msg = true /\ native_ok env) ->
  let w' := snd (deliver env msg type targetId w) in
  (exists cs, calls w' = calls w ++ cs ++ [Forward targetId])
  /\ (exists lines, sink w' = (sink w ++ lines) /\ (SentNative ∉ lines)
                    /\ SwitchingToForward ∈ lines)
  /\ timers w' = timers w.
Proof.
  intros Hnot. unfold native_ok in Hnot. run_attempt.
  assert (Hs : forall l : list LogLine,
             (forall x, x ∈ l -> x <> SentNative) -> SwitchingToForward ∈ l ->
             forall s0, exists lines, s0 ++ l = s0 ++ lines /\ (SentNative ∉ lines)
                                      /\ SwitchingToForward ∈ lines).
  { intros l Hl Hin s0. exists l. split; [reflexivity|]. split; [|exact Hin].
    intros Hc. now apply Hl in Hc. }
  destruct (hasMedia msg); cbn.
  2: { destruct (forward env); cbn; rewrite <- !app_assoc;
       (split; [exists []; reflexivity|]); (split; [|reflexivity]);
       apply Hs; [|cbn; rewrite !elem_of_cons; auto 10| |cbn; rewrite !elem_of_cons; auto 10];
       intros x Hx; repeat (apply elem_of_cons in Hx as [->|Hx]; [discriminate|]);
       now apply elem_of_nil in Hx. }
  destruct (download env) as [media|e]; cbn.
  2: { destruct (forward env); cbn; rewrite <- !app_assoc;
       (split; [exists [DownloadMedia]; reflexivity|]); (split; [|reflexivity]);
       apply Hs; [|cbn; rewrite !elem_of_cons; auto 10| |cbn; rewrite !elem_of_cons; auto 10];
       intros x Hx; repeat (apply elem_of_cons in Hx as [->|Hx]; [discriminate|]);
       now apply elem_of_nil in Hx. }
  destruct (has_data media) as [m|] eqn:Hm; cbn.
  2: { destruct (forward env); cbn; rewrite <- !app_assoc;
       (split; [exists [DownloadMedia]; reflexivity|]); (split; [|reflexivity]);
       apply Hs; [|cbn; rewrite !elem_of_cons; auto 10| |cbn; rewrite !elem_of_cons; auto 10];
       intros x Hx; repeat (apply elem_of_cons in Hx as [->|Hx]; [discriminate|]);
       now apply elem_of_nil in Hx. }
  destruct (Ext.ext_of _) as [ext|e] eqn:He; cbn.
  2: { destruct (forward env); cbn; rewrite <- !app_assoc;
       (split; [exists [DownloadMedia]; reflexivity|]); (split; [|reflexivity]);
       apply Hs; [|cbn; rewrite !elem_of_cons; auto 10| |cbn; rewrite !elem_of_cons; auto 10];
       intros x Hx; repeat (apply elem_of_cons in Hx as [->|Hx]; [discriminate|]);
       now apply elem_of_nil in Hx. }
  destruct (publicDir_exists w); [|destruct (mkdir env) as [[]|e]]; cbn.
  3: { destruct (forward env); cbn; rewrite <- !app_assoc;
       (split; [exists [DownloadMedia]; reflexivity|]); (split; [|reflexivity]);
       apply Hs; [|cbn; rewrite !elem_of_cons; auto 10| |cbn; rewrite !elem_of_cons; auto 10];
       intros x Hx; repeat (apply elem_of_cons in Hx as [->|Hx]; [discriminate|]);
       now apply elem_of_nil in Hx. }
  all: destruct (write env) as [[]|e] eqn:Hwrite; cbn.
  2, 4: destruct (forward env); cbn; rewrite <- !app_assoc;
       (split; [exists [DownloadMedia]; reflexivity|]); (split; [|reflexivity]);
       apply Hs; [|cbn; rewrite !elem_of_cons; auto 10| |cbn; rewrite !elem_of_cons; auto 10];
       intros x Hx; repeat (apply elem_of_cons in Hx as [->|Hx]; [discriminate|]);
       now apply elem_of_nil in Hx.
  all: rewrite lookup_insert_eq; cbn.
  all: destruct (N.eqb_spec (written env) 0) as [Hz|Hz]; cbn.
  1, 3: destruct (forward env); cbn; rewrite <- !app_assoc;
    (split; [exists [DownloadMedia]; reflexivity|]); (split; [|reflexivity]);
    apply Hs; [|cbn; rewrite !elem_of_cons; auto 10| |cbn; rewrite !elem_of_cons; auto 10];
    intros x Hx; repeat (apply elem_of_cons in Hx as [->|Hx]; [discriminate|]);
    now apply elem_of_nil in Hx.
  all: destruct (send env) as [[]|e] eqn:Hsend; cbn.
  1, 3: exfalso; apply Hnot; (split; [reflexivity|]); now exists media, m, ext.
  all: destruct (forward env); cbn; rewrite <- !app_assoc;
    (split; [eexists [DownloadMedia; _]; reflexivity|]); (split; [|reflexivity]);
    apply Hs; [|cbn; rewrite !elem_of_cons; auto 10| |cbn; rewrite !elem_of_cons; auto 10];
    intros x Hx; repeat (apply elem_of_cons in Hx as [->|Hx]; [discriminate|]);
    now apply elem_of_nil in Hx.
Qed.

Lemma forward_whenever_native_fails_witness :
  exists cs, calls (snd (deliver all_throw photo "image" "B" initial))
             = calls initial ++ cs ++ [Forward "B"].
Proof.
  refine (proj1 (forward_whenever_native_fails all_throw photo "image" "B" initial _)).
  intros [_ (media & m & ext & Hd & _)]. discriminate Hd.
Defined.

End HandlerFacts.

(** ** Further properties of the extension mapping *)

Section ExtMore.
Import Js JsString Ext.

Lemma own_truthy (key v : string) : own key mimeMap = Some v -> truthy v = true.
Proof.
  unfold mimeMap. cbn [own].
  repeat (destruct (String.eqb _ _); [intros [= <-]; reflexivity|]). discriminate.
Qed.

Lemma own_key_plain (key v : string) :
  own key mimeMap = Some v -> includes key ";" = false.
Proof.
  unfold mimeMap. cbn [own].
  repeat match goal with
         | |- context [String.eqb key ?k] =>
             destruct (String.eqb_spec key k) as [->|_]; [intros _; reflexivity|]
         end.
  discriminate.
Qed.

Lemma inherited_truthy (key : string) : truthy (inherited_text key) = true.
Proof.
  unfold inherited_text.
  destruct (String.eqb key "__proto__"); [reflexivity|].
  destruct (String.eqb key "constructor"); reflexivity.
Qed.

Lemma append_assoc (a b c : string) : a +:+ (b +:+ c) = (a +:+ b) +:+ c.
Proof.
  induction a as [|d a IH]; [reflexivity|].
  change (String d (a +:+ (b +:+ c)) = String d ((a +:+ b) +:+ c)). now rewrite IH.
Qed.

(** Index 1 of a split is missing exactly when the separator does not
    occur. *)
Lemma split_second_none (sep : ascii) (s : string) :
  split sep s !! 1%nat = None <-> includes s (String sep "") = false.
Proof.
  induction s as [|c r IH]; [split; reflexivity|].
  cbn [split includes String.prefix].
  destruct (Ascii.eqb_spec c sep) as [->|Hne].
  - destruct (ascii_dec sep sep) as [_|Hn]; [|contradiction].
    pose proof (split_nonempty sep r) as Hs. destruct (split sep r) as [|h t]; [contradiction|].
    destruct r; cbn; split; discriminate.
  - destruct (ascii_dec sep c) as [Heq|_]; [symmetry in Heq; contradiction|].
    pose proof (split_nonempty sep r) as Hs. destruct (split sep r) as [|h t]; [contradiction|].
    cbn [orb]. cbn in IH |- *. exact IH.
Qed.

Lemma includes_char_cons (c d : ascii) (s : string) :
  includes (String d s) (String c "") = Ascii.eqb c d || includes s (String c "").
Proof.
  cbn [includes String.prefix].
  destruct (ascii_dec c d) as [->|Hne].
  - rewrite Ascii.eqb_refl. now destruct s.
  - destruct (Ascii.eqb_spec c d); [contradiction|reflexivity].
Qed.

Lemma includes_char_app (c : ascii) (a b : string) :
  includes (a +:+ b) (String c "")
  = includes a (String c "") || includes b (String c "").
Proof.
  induction a as [|d a IH]; [reflexivity|].
  change (String d a +:+ b) with (String d (a +:+ b)).
  rewrite !includes_char_cons, IH. now rewrite orb_assoc.
Qed.

(** A segment before the first separator is the first segment. *)
Lemma first_segment_before (sep : ascii) (a b : string) :
  includes a (String sep "") = false ->
  first_segment sep (a +:+ String sep b) = a.
Proof.
  unfold first_segment. induction a as [|d a IH]; intros Hn.
  - change ("" +:+ String sep b) with (String sep b). cbn [split].
    now rewrite Ascii.eqb_refl.
  - rewrite includes_char_cons in Hn. apply orb_false_iff in Hn as [Hd Hn].
    change (String d a +:+ String sep b) with (String d (a +:+ String sep b)).
    cbn [split]. rewrite Ascii.eqb_sym, Hd. specialize (IH Hn).
    destruct (split sep (a +:+ String sep b)) as [|h t]; [subst; reflexivity|].
    now subst.
Qed.

Lemma first_segment_plain (sep : ascii) (a : string) :
  includes a (String sep "") = false -> first_segment sep a = a.
Proof.
  unfold first_segment. induction a as [|d a IH]; intros Hn; [reflexivity|].
  rewrite includes_char_cons in Hn. apply orb_false_iff in Hn as [Hd Hn].
  cbn [split]. rewrite Ascii.eqb_sym, Hd. specialize (IH Hn).
  pose proof (split_nonempty sep a) as Hs.
  destruct (split sep a) as [|h t]; [contradiction|]. now subst.
Qed.

Lemma first_segment_app (sep : ascii) (a b : string) :
  includes a (String sep "") = false ->
  first_segment sep (a +:+ b) = a +:+ first_segment sep b.
Proof.
  unfold first_segment. induction a as [|d a IH]; intros Hn; [reflexivity|].
  rewrite includes_char_cons in Hn. apply orb_false_iff in Hn as [Hd Hn].
  change (String d a +:+ b) with (String d (a +:+ b)).
  cbn [split]. rewrite Ascii.eqb_sym, Hd. specialize (IH Hn).
  pose proof (split_nonempty sep (a +:+ b)) as Hs.
  destruct (split sep (a +:+ b)) as [|h t]; [contradiction|].
  cbn. now rewrite IH.
Qed.

Lemma split_second_after (sep : ascii) (a b : string) :
  includes a (String sep "") = false ->
  split sep (a +:+ String sep b) !! 1%nat = Some (first_segment sep b).
Proof.
  unfold first_segment. induction a as [|d a IH]; intros Hn.
  - change ("" +:+ String sep b) with (String sep b). cbn [split].
    rewrite Ascii.eqb_refl. cbn [lookup list_lookup].
    pose proof (split_nonempty sep b) as Hs. now destruct (split sep b).
  - rewrite includes_char_cons in Hn. apply orb_false_iff in Hn as [Hd Hn].
    change (String d a +:+ String sep b) with (String d (a +:+ String sep b)).
    cbn [split]. rewrite Ascii.eqb_sym, Hd. specialize (IH Hn).
    pose proof (split_nonempty sep (a +:+ String sep b)) as Hs.
    destruct (split sep (a +:+ String sep b)) as [|h t]; [contradiction|]. exact IH.
Qed.

(** X9. The extension the mapping returns is never the empty string, so a
    temporary file name never ends in a bare dot. *)
Theorem ext_of_never_empty (mime ext : string) :
  ext_of mime = Returns ext -> ext <> "".
Proof.
  unfold ext_of. intros H.
  assert (Ht : truthy ext = true); [|now destruct ext].
  destruct (get (first_segment ";" mime)) as [v|key|] eqn:Hg.
  - unfold get in Hg. destruct (own _ mimeMap) as [v'|] eqn:Ho.
    + injection Hg as <-. pose proof (own_truthy _ _ Ho) as Hv. rewrite Hv in H.
      injection H as <-. exact Hv.
    + destruct (bool_decide _); discriminate.
  - injection H as <-. apply inherited_truthy.
  - destruct (split "/" mime !! 1%nat) as [sub|]; [|discriminate].
    destruct (truthy (first_segment ";" sub)) eqn:Hs; now injection H as <-.
Qed.

Lemma ext_of_never_empty_witness : "octet-stream" <> "".
Proof. exact (ext_of_never_empty "application/octet-stream" "octet-stream" eq_refl). Defined.

(** X10. The mapping throws exactly for the MIME strings that contain no
    slash and whose part before the first semicolon is neither a key of the
    table nor a member of Object.prototype. *)
Theorem ext_of_throws_iff (mime : string) :
  (exists e, ext_of mime = Throws e)
  <-> get (first_segment ";" mime) = Undefined
      /\ ~ (exists pre post, mime = pre +:+ "/" +:+ post).
Proof.
  rewrite <- includes_iff, not_true_iff_false, <- split_second_none.
  unfold ext_of. destruct (get (first_segment ";" mime)) as [v|key|] eqn:Hg.
  - unfold get in Hg. destruct (own _ mimeMap) as [v'|] eqn:Ho.
    + injection Hg as <-. rewrite (own_truthy _ _ Ho).
      split; [intros [e H]; discriminate|intros [H _]; discriminate].
    + destruct (bool_decide _); discriminate.
  - split; [intros [e H]; discriminate|intros [H _]; discriminate].
  - destruct (split "/" mime !! 1%nat) as [sub|].
    + split; [|intros [_ H]; discriminate].
      intros [e H]. destruct (truthy _); discriminate.
    + split; [auto|]. intros _. eexists. reflexivity.
Qed.

(** X11. Parameters after a semicolon do not change the extension: a key of
    the table followed by ";" and anything maps to the table entry, and a
    type/subtype that is no key, followed by ";" and anything, maps to the
    subtype. *)
Theorem ext_of_ignores_parameters (params : string) :
  (forall key ext, own key mimeMap = Some ext ->
     ext_of (key +:+ ";" +:+ params) = Returns ext)
  /\ (forall type sub,
        includes type "/" = false -> includes type ";" = false ->
        includes sub "/" = false -> includes sub ";" = false ->
        sub <> "" ->
        get (type +:+ "/" +:+ sub) = Undefined ->
        ext_of (type +:+ "/" +:+ sub +:+ ";" +:+ params) = Returns sub
        /\ ext_of (type +:+ "/" +:+ sub) = Returns sub).
Proof.
  split.
  - intros key ext Ho. apply ext_of_table.
    change (key +:+ ";" +:+ params) with (key +:+ String ";" params).
    now rewrite (first_segment_before _ _ _ (own_key_plain _ _ Ho)).
  - intros type sub Ht1 Ht2 Hs1 Hs2 Hne Hg.
    assert (Hplain : includes (type +:+ "/" +:+ sub) ";" = false).
    { rewrite includes_char_app, Ht2.
      change ("/" +:+ sub) with (String "/" sub). now rewrite includes_char_cons, Hs2. }
    assert (Htr : truthy sub = true) by now destruct sub.
    split.
    + change (type +:+ "/" +:+ sub +:+ ";" +:+ params)
        with (type +:+ String "/" (sub +:+ String ";" params)).
      assert (Hfs : first_segment ";" (type +:+ String "/" (sub +:+ String ";" params))
                    = type +:+ "/" +:+ sub).
      { replace (type +:+ String "/" (sub +:+ String ";" params))
          with ((type +:+ "/" +:+ sub) +:+ String ";" params)
          by (symmetry; apply (append_assoc type (String "/" sub) (String ";" params))).
        now apply first_segment_before. }
      assert (Hsp : split "/" (type +:+ String "/" (sub +:+ String ";" params)) !! 1%nat
                    = Some (sub +:+ String ";" (first_segment "/" params))).
      { rewrite (split_second_after _ _ _ Ht1), (first_segment_app _ _ _ Hs1).
        do 2 f_equal. unfold first_segment. cbn [split]. cbn [Ascii.eqb Bool.eqb].
        pose proof (split_nonempty "/" params). now destruct (split "/" params). }
      unfold ext_of. rewrite Hfs, Hg, Hsp.
      rewrite (first_segment_before _ _ _ Hs2), Htr. reflexivity.
    + unfold ext_of. rewrite (first_segment_plain _ _ Hplain), Hg.
      change (type +:+ "/" +:+ sub) with (type +:+ String "/" sub).
      rewrite (split_second_after _ _ _ Ht1), (first_segment_plain _ _ Hs1).
      now rewrite (first_segment_plain _ _ Hs2), Htr.
Qed.

Lemma ext_of_ignores_parameters_witness :
  ext_of ("audio/ogg" +:+ ";" +:+ " codecs=opus") = Returns "ogg"
  /\ ext_of ("application" +:+ "/" +:+ "pdf" +:+ ";" +:+ " charset=binary") = Returns "pdf".
Proof.
  split.
  - exact (proj1 (ext_of_ignores_parameters " codecs=opus") "audio/ogg" "ogg" eq_refl).
  - refine (proj1 (proj2 (ext_of_ignores_parameters " charset=binary") "application" "pdf"
                     eq_refl eq_refl eq_refl eq_refl _ eq_refl)).
    discriminate.
Defined.

End ExtMore.

(** ** Further properties of the routing table *)

Section RoutingMore.
Import Routing Api.

Lemma handle_one (req : Request) (s : Server) :
  (handle req s = (s, Failure 400 "Invalid index"))
  \/ (exists s', handle req s = (s', Success (rules s'))
                 /\ persisted s' = persisted s ++ [rules s']).
Proof.
  destruct req as [r|[i|]]; cbn; unfold post_rule, delete_rule, writeConfig; cbn.
  - right. exists (mkServer (rules s ++ [r]) (persisted s ++ [rules s ++ [r]])).
    split; reflexivity.
  - destruct (_ && _); [right|now left].
    exists (mkServer (delete (Z.to_nat i) (rules s))
                     (persisted s ++ [delete (Z.to_nat i) (rules s)])).
    split; reflexivity.
  - now left.
Qed.

(** X12. However many add and delete requests are served, one document is
    written per successful answer and none for a rejected one; a rejected
    request changes nothing, and after any successful one the document
    written last is the table held in memory. *)
Theorem requests_keep_disk_in_sync (reqs : list Request) (s : Server) :
  let out := handle_all reqs s in
  length (snd out) = length reqs
  /\ length (persisted (fst out))
     = (length (persisted s) + length (List.filter is_success (snd out)))%nat
  /\ (List.filter is_success (snd out) = [] -> fst out = s)
  /\ (synced s \/ List.filter is_success (snd out) <> [] -> synced (fst out)).
Proof.
  cbn zeta. revert s. induction reqs as [|req reqs IH]; intros s.
  - cbn. repeat split; auto. intros [H|H]; [exact H|contradiction].
  - cbn [handle_all].
    destruct (handle_one req s) as [Hrej|(s1 & Hok & Hp)].
    + rewrite Hrej. specialize (IH s). destruct (handle_all reqs s) as [s2 answers].
      cbn in *. destruct IH as (Hl & Hw & Hsame & Hsync). repeat split; auto.
    + rewrite Hok. specialize (IH s1). destruct (handle_all reqs s1) as [s2 answers].
      cbn in *. destruct IH as (Hl & Hw & Hsame & Hsync).
      split; [now rewrite Hl|]. split; [rewrite Hw, Hp, length_app; cbn; lia|].
      split; [discriminate|]. intros _. apply Hsync. left.
      unfold synced. rewrite Hp. apply last_snoc.
Qed.

Lemma requests_keep_disk_in_sync_witness :
  synced (fst (handle_all [DeleteRule (Some 3%Z); PostRule (mkRule "A" ["B"] None);
                           DeleteRule None]
                          (mkServer [] []))).
Proof.
  refine (proj2 (proj2 (proj2 (requests_keep_disk_in_sync
            [DeleteRule (Some 3%Z); PostRule (mkRule "A" ["B"] None); DeleteRule None]
            (mkServer [] [])))) _).
  right. discriminate.
Defined.

(** X13. A successful delete at index i leaves the rules below i where they
    are and moves every later rule one position down, so an index read
    from the table before the delete no longer names the same rule. *)
Theorem delete_rule_shifts_later_rules (i : Z) (s : Server) :
  in_range (Some i) s = true ->
  let s' := fst (delete_rule (Some i) s) in
  S (length (rules s')) = length (rules s)
  /\ forall j : nat,
       rules s' !! j = if decide (j < Z.to_nat i)%nat then rules s !! j
                       else rules s !! S j.
Proof.
  intros Hr. cbn zeta. unfold in_range in Hr. unfold delete_rule. rewrite Hr.
  cbn [fst rules writeConfig].
  apply andb_true_iff in Hr as [H0 H1]. apply Z.leb_le in H0. apply Z.ltb_lt in H1.
  split.
  - rewrite length_delete by (apply lookup_lt_is_Some; lia).
    destruct (rules s); cbn in *; lia.
  - intros j. rewrite list_lookup_delete. now destruct (decide (j < Z.to_nat i)%nat).
Qed.

Lemma delete_rule_shifts_later_rules_witness :
  rules (fst (delete_rule (Some 0%Z)
                (mkServer [mkRule "A" ["B"] None; mkRule "C" ["D"] None] []))) !! 0%nat
  = Some (mkRule "C" ["D"] None).
Proof.
  exact (proj2 (delete_rule_shifts_later_rules 0
                  (mkServer [mkRule "A" ["B"] None; mkRule "C" ["D"] None] []) eq_refl) 0%nat).
Defined.

(** X14. Matching follows the mutations: an appended rule is added at the
    end of the matches of its own source and changes the matches of no
    other source; deleting a rule changes the matches of no source but its
    own. *)
Theorem matching_follows_mutations (c : GroupId) (s : Server) :
  (forall r,
     validRules c (rules (fst (post_rule r s)))
     = validRules c (rules s) ++ (if decide (source r = c) then [r] else []))
  /\ (forall (i : nat) x,
        rules s !! i = Some x -> source x <> c ->
        validRules c (rules (fst (delete_rule (Some (Z.of_nat i)) s)))
        = validRules c (rules s)).
Proof.
  split.
  - intros r. unfold post_rule, validRules. cbn. rewrite filter_app.
    destruct (decide (source r = c)) as [Hs|Hs].
    + now rewrite filter_cons_True.
    + now rewrite filter_cons_False.
  - intros i x Hx Hne. pose proof (lookup_lt_Some _ _ _ Hx) as Hlt.
    unfold delete_rule.
    replace (0 <=? Z.of_nat i)%Z with true by (symmetry; apply Z.leb_le; lia).
    replace (Z.of_nat i <? Z.of_nat (length (rules s)))%Z with true
      by (symmetry; apply Z.ltb_lt; lia).
    cbn. rewrite Nat2Z.id, delete_take_drop.
    rewrite <- (take_drop_middle _ _ _ Hx) at 3.
    unfold validRules. rewrite !filter_app, filter_cons_False by assumption. reflexivity.
Qed.

Lemma matching_follows_mutations_witness :
  validRules "A" (rules (fst (delete_rule (Some (Z.of_nat 1))
                    (mkServer [mkRule "A" ["B"] None; mkRule "C" ["D"] None] []))))
  = validRules "A" [mkRule "A" ["B"] None; mkRule "C" ["D"] None].
Proof.
  refine (proj2 (matching_follows_mutations "A"
            (mkServer [mkRule "A" ["B"] None; mkRule "C" ["D"] None] []))
            1%nat (mkRule "C" ["D"] None) eq_refl _).
  discriminate.
Defined.

End RoutingMore.

(** ** Engine events: reconnection, status broadcasts, refresh loops *)

Section SessionFacts.
Import Js Session.

Lemma last_status_snoc (events : list Event) (e : Event) :
  last_status (events ++ [e])
  = match e with Status l => Some l | _ => last_status events end.
Proof.
  induction events as [|x events IH]; cbn.
  - now destruct e.
  - rewrite IH. destruct e; try reflexivity; now destruct (last_status events).
Qed.

(** What one signal does to the reconnection state. *)
Lemma on_signal_step (sig : Signal) (s : State) :
  exists s',
    on_signal sig s = (Returns tt, s')
    /\ reinits s' = reinits s ++ (if is_disconnected sig && negb (isReconnecting s)
                                  then [3000%Z] else [])
    /\ destroys s' = (destroys s + (if is_disconnected sig && negb (isReconnecting s)
                                    then 1 else 0))%nat
    /\ isReconnecting s' = (if is_ready sig then false
                            else is_disconnected sig || isReconnecting s)
    /\ loops s' = (loops s + (if is_ready sig then 1 else 0))%nat
    /\ ((forall l, last_status (sink s) = Some l -> l = currentStatus s) ->
        forall l, last_status (sink s') = Some l -> l = currentStatus s').
Proof.
  unfold on_signal, on_qr, on_ready, on_authenticated, on_auth_failure, on_disconnected,
    updateStatus, emit, set_reconnecting, call_destroy, setTimeout_initializeClient,
    start_fetch_loop, try_catch, lift, modify, gets, mbind, M_bind, mret, M_ret.
  destruct sig as [[url|e]| | |msg|reason [[]|e]]; cbn;
    try (destruct (isReconnecting s) eqn:Hr; cbn);
    eexists; (split; [reflexivity|]); cbn;
    rewrite ?app_nil_r, ?Nat.add_0_r, ?Nat.add_1_r, ?Hr;
    repeat (split; [reflexivity|]);
    intros Hinv l; rewrite ?last_status_snoc; try (intros [= <-]; reflexivity);
    try apply Hinv.
Qed.

(** The state after a sequence of signals, with the number [n] of
    re-initializations armed on the way. *)
Lemma on_signals_run (sigs : list Signal) (s : State) :
  exists s' n,
    on_signals sigs s = (Returns tt, s')
    /\ reinits s' = reinits s ++ replicate n 3000%Z
    /\ destroys s' = (destroys s + n)%nat
    /\ loops s' = (loops s + length (List.filter is_ready sigs))%nat
    /\ (n <= length (List.filter is_ready sigs)
             + (if isReconnecting s then 0 else 1))%nat
    /\ (List.filter is_ready sigs = [] ->
        n = if negb (isReconnecting s) && existsb is_disconnected sigs then 1%nat else 0%nat)
    /\ ((forall l, last_status (sink s) = Some l -> l = currentStatus s) ->
        forall l, last_status (sink s') = Some l -> l = currentStatus s').
Proof.
  unfold on_signals. revert s. induction sigs as [|sig sigs IH]; intros s.
  - exists s, 0%nat. cbn. rewrite app_nil_r, Nat.add_0_r, andb_false_r.
    repeat split; auto; lia.
  - cbn [for_of]. unfold mbind at 1, M_bind at 1.
    destruct (on_signal_step sig s) as (s1 & -> & Hre & Hde & Hfl & Hlo & Hst).
    destruct (IH s1) as (s' & n & Hrun & Hre' & Hde' & Hlo' & Hbound & Hexact & Hst').
    exists s', ((if is_disconnected sig && negb (isReconnecting s) then 1 else 0) + n)%nat.
    split; [exact Hrun|].
    split. { rewrite Hre', Hre, <- app_assoc. f_equal. now destruct (_ && _). }
    split. { rewrite Hde', Hde. lia. }
    split. { rewrite Hlo', Hlo. cbn [List.filter]. destruct (is_ready sig); cbn; lia. }
    split.
    { rewrite Hfl in Hbound. cbn [List.filter].
      destruct sig; destruct (isReconnecting s); cbn in *; lia. }
    split.
    { cbn [List.filter existsb]. rewrite Hfl in Hexact.
      destruct sig; destruct (isReconnecting s); cbn in *; intros Hnr;
        try discriminate; rewrite (Hexact Hnr); reflexivity. }
    intros Hinv. apply Hst'. now apply Hst.
Qed.

(** X15. Signals never make the handlers throw, and re-initialization is
    single-flight: over any sequence of signals, the number of timers armed
    by disconnects (each of 3000 ms and each preceded by one call of
    destroy) is at most the number of ready signals, plus one when the
    sequence starts outside a reconnection. *)
Theorem reconnection_is_single_flight (sigs : list Signal) (s : State) :
  exists n,
    fst (on_signals sigs s) = Returns tt
    /\ reinits (snd (on_signals sigs s)) = reinits s ++ replicate n 3000%Z
    /\ destroys (snd (on_signals sigs s)) = (destroys s + n)%nat
    /\ (n <= length (List.filter is_ready sigs)
             + (if isReconnecting s then 0 else 1))%nat.
Proof.
  destruct (on_signals_run sigs s) as (s' & n & -> & Hre & Hde & _ & Hb & _).
  exists n. auto.
Qed.

(** X16. Only a ready signal clears the reconnection flag: in a sequence
    without one, however many disconnects, QR challenges, authentications
    and authentication failures it contains, exactly one re-initialization
    is armed when it starts outside a reconnection and contains a
    disconnect, and none otherwise. *)
Theorem no_recovery_without_ready (sigs : list Signal) (s : State) :
  List.filter is_ready sigs = [] ->
  reinits (snd (on_signals sigs s))
  = reinits s ++ (if negb (isReconnecting s) && existsb is_disconnected sigs
                  then [3000%Z] else []).
Proof.
  intros Hnr.
  destruct (on_signals_run sigs s) as (s' & n & -> & Hre & _ & _ & _ & Hex & _).
  cbn [snd]. rewrite Hre, (Hex Hnr). now destruct (_ && _).
Qed.

Lemma no_recovery_without_ready_witness :
  reinits (snd (on_signals [Disconnected "NAVIGATION" (Returns tt);
                            QrChallenge (Returns "data:image/png;base64,AAAA");
                            Disconnected "LOGOUT" (Throws (mkError None))]
                           initial))
  = [3000%Z].
Proof.
  exact (no_recovery_without_ready
           [Disconnected "NAVIGATION" (Returns tt);
            QrChallenge (Returns "data:image/png;base64,AAAA");
            Disconnected "LOGOUT" (Throws (mkError None))]
           initial eq_refl).
Defined.

(** X17. Every ready signal starts a refresh loop of its own and none is
    ever cancelled: after any sequence of signals the number of loops
    started has grown by the number of ready signals in it. *)
Theorem every_ready_starts_a_loop (sigs : list Signal) (s : State) :
  loops (snd (on_signals sigs s))
  = (loops s + length (List.filter is_ready sigs))%nat.
Proof.
  destruct (on_signals_run sigs s) as (s' & n & -> & _ & _ & Hlo & _). exact Hlo.
Qed.

(** X18. The status kept for late joiners is the status broadcast last: if
    that holds before a sequence of signals it holds after it, so a socket
    that connects is sent the label of the last status broadcast. *)
Theorem late_joiner_gets_last_status (sigs : list Signal) (s : State)
    (groups : list Directory.GroupRecord) :
  (forall l, last_status (sink s) = Some l -> l = currentStatus s) ->
  forall l, last_status (sink (snd (on_signals sigs s))) = Some l ->
            exists rest, on_connection (snd (on_signals sigs s)) groups = SStatus l :: rest.
Proof.
  intros Hinv l Hl.
  destruct (on_signals_run sigs s) as (s' & n & Hrun & _ & _ & _ & _ & _ & Hst).
  rewrite Hrun in *. cbn [snd] in *. rewrite (Hst Hinv l Hl).
  unfold on_connection. eexists. reflexivity.
Qed.

Lemma late_joiner_gets_last_status_witness :
  exists rest,
    on_connection (snd (on_signals [Authenticated; ReadySignal] initial)) []
    = SStatus "Connected" :: rest.
Proof.
  refine (late_joiner_gets_last_status [Authenticated; ReadySignal] initial [] _
            "Connected" eq_refl).
  intros l H. discriminate H.
Defined.

End SessionFacts.

(** ** The group directory: automatic loop and manual refresh *)

Section DirectoryMore.
Import Js Directory.

Ltac run_fetch' :=
  unfold fetchGroups, getChats, setTimeout_fetchGroups, emit, try_catch, lift,
    modify, gets, mbind, M_bind, mret, M_ret;
  cbn -[Nat.ltb].

(** What one attempt publishes. *)
Lemma fetchGroups_publishes (answer : Outcome (list ChatInfo)) (s : State) :
  exists s' lines,
    fetchGroups answer s = (Returns tt, s')
    /\ sink s' = sink s ++ lines
    /\ match answer with
       | Returns chats =>
           if decide (groups_of chats = []) then
             (forall g, Groups g ∉ lines) /\ availableGroups s' = availableGroups s
           else
             (forall g, Groups g ∈ lines -> g = groups_of chats)
             /\ availableGroups s' = groups_of chats
       | Throws _ =>
           (forall g, Groups g ∉ lines) /\ availableGroups s' = availableGroups s
       end.
Proof.
  assert (Hno : forall (l : list Event) g, Forall (fun e => forall g, e <> Groups g) l ->
                  Groups g ∉ l).
  { intros l g Hl Hin. rewrite Forall_forall in Hl. exact (Hl _ Hin g eq_refl). }
  run_fetch'. destruct answer as [chats|e]; cbn -[Nat.ltb].
  - destruct (decide (groups_of chats = [])) as [Hg|Hg].
    + rewrite Hg. cbn -[Nat.ltb].
      destruct (S (attempts s) <? 20)%nat; cbn; do 2 eexists;
        (split; [reflexivity|]); cbn; rewrite <- ?app_assoc;
        (split; [reflexivity|]); (split; [|reflexivity]);
        intros g; apply Hno; repeat constructor; discriminate.
    + destruct (groups_of chats) as [|g gs]; [contradiction|]. cbn -[Nat.ltb].
      destruct (S (attempts s) <? 5)%nat; cbn; do 2 eexists;
        (split; [reflexivity|]); cbn; rewrite <- ?app_assoc;
        (split; [reflexivity|]); (split; [|reflexivity]);
        intros g' Hin; apply elem_of_cons in Hin as [[= ->]|Hin]; try reflexivity;
        exfalso; revert Hin; apply Hno; repeat constructor; discriminate.
  - destruct (S (attempts s) <? 20)%nat; cbn; do 2 eexists;
      (split; [reflexivity|]); cbn; rewrite <- ?app_assoc;
      (split; [reflexivity|]); (split; [|reflexivity]);
      intros g; apply Hno; repeat constructor; discriminate.
Qed.

(** X19. The automatic loop never publishes an empty directory and never
    clears the one it has: every snapshot it broadcasts is non-empty, and
    when it stops the directory is either the one it started with or the
    non-empty group list of one of the fetches. *)
Theorem automatic_refresh_never_clears oracle (fuel : nat) (s : State) :
  exists lines,
    sink (snd (run oracle fuel s)) = sink s ++ lines
    /\ (forall g, Groups g ∈ lines -> g <> [])
    /\ (availableGroups (snd (run oracle fuel s)) = availableGroups s
        \/ exists n chats,
             oracle n = Returns chats /\ groups_of chats <> []
             /\ availableGroups (snd (run oracle fuel s)) = groups_of chats).
Proof.
  revert s. induction fuel as [|fuel IH]; intros s.
  - exists []. cbn. rewrite app_nil_r. split; [reflexivity|]. split; [|now left].
    intros g Hg. now apply elem_of_nil in Hg.
  - cbn [run].
    destruct (fetchGroups_publishes (oracle (S (attempts s))) s)
      as (s1 & lines1 & -> & Hs1 & Hcase).
    assert (Hpub : forall g, Groups g ∈ lines1 -> g <> []).
    { intros g Hg. destruct (oracle (S (attempts s))) as [chats|e].
      - destruct (decide (groups_of chats = [])) as [He|Hne].
        + now destruct Hcase as [Hn _]; apply Hn in Hg.
        + destruct Hcase as [Heq _]. now rewrite (Heq g Hg).
      - now destruct Hcase as [Hn _]; apply Hn in Hg. }
    assert (Hav1 : availableGroups s1 = availableGroups s
                   \/ exists n chats,
                        oracle n = Returns chats /\ groups_of chats <> []
                        /\ availableGroups s1 = groups_of chats).
    { destruct (oracle (S (attempts s))) as [chats|e] eqn:Ho.
      - destruct (decide (groups_of chats = [])) as [He|Hne].
        + left. now destruct Hcase.
        + right. exists (S (attempts s)), chats. destruct Hcase. auto.
      - left. now destruct Hcase. }
    destruct (timers s1) as [|t rest].
    + exists lines1. cbn [snd]. split; [exact Hs1|]. split; [exact Hpub|exact Hav1].
    + match goal with |- context [run oracle fuel ?s0] =>
        destruct (IH s0) as (lines & Hs & Hne & Hav)
      end.
      cbn [sink availableGroups] in Hs, Hav.
      exists (lines1 ++ lines). split; [now rewrite Hs, Hs1, app_assoc|]. split.
      * intros g Hg. apply elem_of_app in Hg as [Hg|Hg]; [now apply Hpub|now apply Hne].
      * destruct Hav as [Hav|Hav]; [|now right]. rewrite Hav. exact Hav1.
Qed.

(** X20. A manual refresh never throws and leaves the attempt budget and
    the timers of the automatic loop alone.  When the client is not ready it
    fetches nothing and changes nothing; when the fetch fails it answers 500
    and keeps the directory; otherwise it replaces the directory by the
    groups fetched and broadcasts them, even when there are none, where an
    automatic attempt with the same answer keeps the old directory. *)
Theorem manual_refresh_outcomes (connected : bool) (answer : Outcome (list ChatInfo))
    (s : State) :
  let out := Refresh.refresh connected answer s in
  attempts (snd out) = attempts s /\ timers (snd out) = timers s
  /\ match connected, answer with
     | false, _ => out = (Returns Refresh.NotReady, s)
     | true, Throws e =>
         fst out = Returns (Refresh.Failed 500 (message e))
         /\ availableGroups (snd out) = availableGroups s /\ sink (snd out) = sink s
         /\ fetches (snd out) = S (fetches s)
     | true, Returns chats =>
         fst out = Returns (Refresh.Refreshed (length (groups_of chats)))
         /\ availableGroups (snd out) = groups_of chats
         /\ sink (snd out) = sink s ++ [Groups (groups_of chats)]
         /\ (groups_of chats = [] ->
             availableGroups (snd (fetchGroups answer s)) = availableGroups s)
     end.
Proof.
  cbn zeta. unfold Refresh.refresh.
  destruct connected; [|repeat split].
  destruct answer as [chats|e];
    unfold getChats, emit, try_catch, lift, modify, mbind, M_bind, mret, M_ret; cbn;
    repeat split.
  intros Hg. run_fetch'. rewrite Hg. cbn -[Nat.ltb].
  now destruct (S (attempts s) <? 20)%nat.
Qed.

End DirectoryMore.

(** ** The retry chains of the session controller *)

Section RetryFacts.
Import Js JsString Lifecycle Scheduler.

Ltac run_controller' :=
  unfold initializeClient, cleanup, rm_if_exists, rm, existsSync, remove_dir, await,
    updateStatus, setTimeout, emit, call, try_catch, lift, modify, gets,
    mbind, M_bind, mret, M_ret;
  cbn.

Lemma length_insert_timer (t : Z * Task) (q : list (Z * Task)) :
  length (insert_timer t q) = S (length q).
Proof.
  induction q as [|u q IH]; [reflexivity|].
  cbn [insert_timer]. destruct (fst t <? fst u)%Z; cbn; [reflexivity|now rewrite IH].
Qed.

(** X21. [initializeClient] never throws and never touches the session
    directories; it arms exactly one timer when initialization fails and
    none when it succeeds, so a failed start is always followed by another
    attempt and retries never pile up.  After a failure without corruption
    signature it returns with the status "Init Error"; after a successful
    start the status is the one set by the last handler that ran while
    [client.initialize()] was pending, and "Initializing..." only when none
    did. *)
Theorem initializeClient_arms_one_retry (env : Env) (s : State) :
  let out := initializeClient env s in
  fst out = Returns tt
  /\ length (timers (snd out))
     = (length (timers s) + (if throws (initialize env) then 1 else 0))%nat
  /\ auth_exists (snd out) = auth_exists s
  /\ cache_exists (snd out) = cache_exists s
  /\ (failing env -> currentStatus (snd out) = "Init Error")
  /\ (initialize env = Returns tt ->
      currentStatus (snd out) = status_after (during_initialize env) "Initializing...").
Proof.
  cbn zeta. unfold failing. run_controller'. rewrite meanwhile_run. cbn.
  destruct (initialize env) as [[]|e]; cbn.
  { rewrite Nat.add_0_r. repeat split. intros (e & He & _). discriminate He. }
  destruct (is_corruption _) eqn:Hc; cbn;
    [rewrite meanwhile_run; cbn; destruct (destroy env); cbn|];
    rewrite length_insert_timer; repeat split; try lia; try discriminate;
    intros (e' & [= <-] & Hc'); congruence.
Qed.

Lemma initializeClient_arms_one_retry_witness :
  currentStatus (snd (initializeClient
                        (Build_Env (Returns tt)
                                   [FromHandler "qr"; Status "Scan QR Code";
                                    Status "Authenticated"]
                                   (Returns tt) [] (fun _ => Returns tt))
                        fresh))
  = "Authenticated".
Proof.
  refine (proj2 (proj2 (proj2 (proj2 (proj2
            (initializeClient_arms_one_retry
               (Build_Env (Returns tt)
                          [FromHandler "qr"; Status "Scan QR Code"; Status "Authenticated"]
                          (Returns tt) [] (fun _ => Returns tt))
               fresh))))) _).
  reflexivity.
Defined.

Lemma corrupt_start (env : Env) (s : State) :
  corrupt env -> timers s = [] ->
  exists s',
    initializeClient env s = (Returns tt, s')
    /\ clock s' = clock s
    /\ timers s' = [((clock s + 1000)%Z, Cleanup)]
    /\ initializations (calls s') = S (initializations (calls s)).
Proof.
  intros (e & He & Hc) Ht. run_controller'. rewrite meanwhile_run. cbn.
  rewrite He, Ht. cbn. rewrite Hc. cbn. rewrite meanwhile_run. cbn.
  unfold initializations.
  destruct (destroy env); cbn; eexists; (split; [reflexivity|]); cbn;
    rewrite <- ?app_assoc, !List.filter_app, !length_app; cbn; repeat split; lia.
Qed.

Lemma failing_start (env : Env) (s : State) :
  failing env -> timers s = [] ->
  exists s',
    initializeClient env s = (Returns tt, s')
    /\ clock s' = clock s
    /\ timers s' = [((clock s + 5000)%Z, InitializeClient)]
    /\ initializations (calls s') = S (initializations (calls s))
    /\ auth_exists s' = auth_exists s /\ cache_exists s' = cache_exists s
    /\ length (calls s') = S (length (calls s)).
Proof.
  intros (e & He & Hc) Ht. run_controller'. rewrite meanwhile_run. cbn.
  rewrite He, Ht. cbn. rewrite Hc. cbn.
  unfold initializations.
  eexists; (split; [reflexivity|]); cbn;
    rewrite <- ?app_assoc, !List.filter_app, !length_app; cbn; repeat split; lia.
Qed.

Lemma cleanup_then_rearm (env : Env) (s : State) :
  timers s = [] ->
  exists s',
    cleanup env s = (Returns tt, s')
    /\ clock s' = clock s
    /\ timers s' = [((clock s + 3000)%Z, InitializeClient)]
    /\ initializations (calls s') = initializations (calls s).
Proof.
  intros Ht. run_controller'. rewrite Ht. unfold initializations.
  destruct (auth_exists s) eqn:Ha, (cache_exists s) eqn:Hc;
    destruct (rmSync env AuthDir) as [[]|e1] eqn:H1;
    destruct (rmSync env CacheDir) as [[]|e2] eqn:H2;
    cbn; rewrite ?Ha, ?Hc, ?H1, ?H2; cbn; rewrite ?H2; cbn;
    eexists; (split; [reflexivity|]); cbn;
    rewrite <- ?app_assoc, ?List.filter_app, ?length_app; cbn; repeat split; lia.
Qed.

(** X22. While initialization keeps failing with a corruption signature the
    repair never gives up: every two timers (cleanup, restart) make one more
    initialization attempt, 4000 ms after the previous one, whatever the
    removals of the directories do. *)
Theorem repair_retries_every_four_seconds oracle (s0 : State) (k : nat) :
  timers s0 = [] ->
  (forall n, corrupt (oracle n)) ->
  let s := fire_many oracle (2 * k) 1 (snd (initializeClient (oracle 0%nat) s0)) in
  clock s = (clock s0 + 4000 * Z.of_nat k)%Z
  /\ timers s = [((clock s + 1000)%Z, Cleanup)]
  /\ initializations (calls s) = (initializations (calls s0) + k + 1)%nat.
Proof.
  intros Ht Hall. cbn zeta.
  assert (Hgen : forall k s1 j,
             timers s1 = [((clock s1 + 1000)%Z, Cleanup)] ->
             clock (fire_many oracle (2 * k) j s1) = (clock s1 + 4000 * Z.of_nat k)%Z
             /\ timers (fire_many oracle (2 * k) j s1)
                = [((clock (fire_many oracle (2 * k) j s1) + 1000)%Z, Cleanup)]
             /\ initializations (calls (fire_many oracle (2 * k) j s1))
                = (initializations (calls s1) + k)%nat).
  { assert (Hstep : forall n s1 j,
               timers s1 = [((clock s1 + 1000)%Z, Cleanup)] ->
               exists s3,
                 fire_many oracle (S (S n)) j s1 = fire_many oracle n (S (S j)) s3
                 /\ clock s3 = (clock s1 + 4000)%Z
                 /\ timers s3 = [((clock s3 + 1000)%Z, Cleanup)]
                 /\ initializations (calls s3) = S (initializations (calls s1))).
    { intros n s1 j Ht1. cbn [fire_many].
      unfold fire_next at 1. rewrite Ht1. cbn [run_task].
      match goal with |- context [cleanup ?e ?s] =>
        destruct (cleanup_then_rearm e s eq_refl) as (s2 & -> & Hc2 & Ht2 & Hi2)
      end.
      cbn [clock calls] in Hc2, Ht2, Hi2.
      unfold fire_next at 1. rewrite Ht2. cbn [run_task].
      match goal with |- context [initializeClient ?e ?s] =>
        destruct (corrupt_start e s (Hall _) eq_refl) as (s3 & -> & Hc3 & Ht3 & Hi3)
      end.
      cbn [clock calls] in Hc3, Ht3, Hi3.
      exists s3. split; [reflexivity|].
      assert (Hclock : clock s3 = (clock s1 + 4000)%Z) by lia.
      split; [exact Hclock|]. split; [|lia].
      rewrite Ht3. do 2 f_equal. lia. }
    clear k. induction k as [|k IH]; intros s1 j Ht1.
    - cbn. split; [lia|]. split; [exact Ht1|lia].
    - replace (2 * S k)%nat with (S (S (2 * k))) by lia.
      destruct (Hstep (2 * k)%nat s1 j Ht1) as (s3 & -> & Hc3 & Ht3 & Hi3).
      destruct (IH s3 (S (S j)) Ht3) as (Hc & Htm & Hin).
      split; [lia|]. split; [exact Htm|lia]. }
  destruct (corrupt_start (oracle 0%nat) s0 (Hall _) Ht) as (s1 & -> & Hc1 & Ht1 & Hi1).
  cbn [snd]. rewrite <- Hc1 in Ht1.
  destruct (Hgen k s1 1%nat Ht1) as (Hc & Htm & Hin).
  split; [lia|]. split; [exact Htm|lia].
Qed.

Lemma repair_retries_every_four_seconds_witness :
  clock (fire_many (fun _ => corrupted) (2 * 3) 1
           (snd (initializeClient corrupted fresh))) = 12000%Z.
Proof.
  refine (proj1 (repair_retries_every_four_seconds (fun _ => corrupted) fresh 3 eq_refl _)).
  intros _. exists protocol_error. split; reflexivity.
Defined.

(** X23. While initialization keeps failing with any other error it is
    retried without end, once every 5000 ms, and nothing but
    [client.initialize()] is called: the engine is not destroyed and the
    session directories are left alone. *)
Theorem generic_failure_retries_every_five_seconds oracle (s0 : State) (k : nat) :
  timers s0 = [] ->
  (forall n, failing (oracle n)) ->
  let s := fire_many oracle k 1 (snd (initializeClient (oracle 0%nat) s0)) in
  clock s = (clock s0 + 5000 * Z.of_nat k)%Z
  /\ timers s = [((clock s + 5000)%Z, InitializeClient)]
  /\ initializations (calls s) = (initializations (calls s0) + k + 1)%nat
  /\ length (calls s) = (length (calls s0) + k + 1)%nat
  /\ auth_exists s = auth_exists s0 /\ cache_exists s = cache_exists s0.
Proof.
  intros Ht Hall. cbn zeta.
  assert (Hgen : forall k s1 j,
             timers s1 = [((clock s1 + 5000)%Z, InitializeClient)] ->
             clock (fire_many oracle k j s1) = (clock s1 + 5000 * Z.of_nat k)%Z
             /\ timers (fire_many oracle k j s1)
                = [((clock (fire_many oracle k j s1) + 5000)%Z, InitializeClient)]
             /\ initializations (calls (fire_many oracle k j s1))
                = (initializations (calls s1) + k)%nat
             /\ length (calls (fire_many oracle k j s1)) = (length (calls s1) + k)%nat
             /\ auth_exists (fire_many oracle k j s1) = auth_exists s1
             /\ cache_exists (fire_many oracle k j s1) = cache_exists s1).
  { assert (Hstep : forall n s1 j,
               timers s1 = [((clock s1 + 5000)%Z, InitializeClient)] ->
               exists s2,
                 fire_many oracle (S n) j s1 = fire_many oracle n (S j) s2
                 /\ clock s2 = (clock s1 + 5000)%Z
                 /\ timers s2 = [((clock s2 + 5000)%Z, InitializeClient)]
                 /\ initializations (calls s2) = S (initializations (calls s1))
                 /\ length (calls s2) = S (length (calls s1))
                 /\ auth_exists s2 = auth_exists s1
                 /\ cache_exists s2 = cache_exists s1).
    { intros n s1 j Ht1. cbn [fire_many].
      unfold fire_next at 1. rewrite Ht1. cbn [run_task].
      match goal with |- context [initializeClient ?e ?s] =>
        destruct (failing_start e s (Hall _) eq_refl)
          as (s2 & -> & Hc2 & Ht2 & Hi2 & Ha2 & Hk2 & Hl2)
      end.
      cbn [clock calls auth_exists cache_exists] in Hc2, Ht2, Hi2, Ha2, Hk2, Hl2.
      exists s2. split; [reflexivity|].
      assert (Hclock : clock s2 = (clock s1 + 5000)%Z) by lia.
      split; [exact Hclock|]. split; [rewrite Ht2; do 2 f_equal; lia|].
      repeat split; assumption. }
    clear k. induction k as [|k IH]; intros s1 j Ht1.
    - cbn. split; [lia|]. split; [exact Ht1|]. repeat split; lia.
    - destruct (Hstep k s1 j Ht1) as (s2 & -> & Hc2 & Ht2 & Hi2 & Hl2 & Ha2 & Hk2).
      destruct (IH s2 (S j) Ht2) as (Hc & Htm & Hin & Hlen & Hau & Hca).
      split; [lia|]. split; [exact Htm|]. repeat split; congruence || lia. }
  destruct (failing_start (oracle 0%nat) s0 (Hall _) Ht)
    as (s1 & -> & Hc1 & Ht1 & Hi1 & Ha1 & Hk1 & Hl1).
  cbn [snd]. rewrite <- Hc1 in Ht1.
  destruct (Hgen k s1 1%nat Ht1) as (Hc & Htm & Hin & Hlen & Hau & Hca).
  split; [lia|]. split; [exact Htm|]. repeat split; congruence || lia.
Qed.

Lemma generic_failure_retries_every_five_seconds_witness :
  clock (fire_many (fun _ => mkEnv (Throws (mkError None)) (Returns tt) (fun _ => Returns tt))
           2 1 (snd (initializeClient
                       (mkEnv (Throws (mkError None)) (Returns tt) (fun _ => Returns tt))
                       fresh))) = 10000%Z.
Proof.
  refine (proj1 (generic_failure_retries_every_five_seconds
            (fun _ => mkEnv (Throws (mkError None)) (Returns tt) (fun _ => Returns tt))
            fresh 2 eq_refl _)).
  intros _. exists (mkError None). split; reflexivity.
Defined.

End RetryFacts.

(** ** The dashboard script *)

Section DashboardFacts.
Import JsString Routing Directory Dashboard.




Lemma substring_length (n : nat) (s : string) :
  (String.length (String.substring 0 n s) <= n)%nat.
Proof.
  revert s. induction n as [|n IH]; intros s; destruct s as [|c s]; cbn; try lia.
  specialize (IH s). lia.
Qed.

Lemma append_length (a b : string) :
  String.length (a +:+ b) = (String.length a + String.length b)%nat.
Proof.
  induction a as [|c a IH]; [reflexivity|].
  change (String.length (String c (a +:+ b)) = S (String.length a) + String.length b)%nat.
  cbn [String.length]. now rewrite IH.
Qed.

Lemma is_ascii_append (a b : string) :
  is_ascii (a +:+ b) = is_ascii a && is_ascii b.
Proof.
  induction a as [|c a IH]; [reflexivity|].
  change (is_ascii (String c (a +:+ b)) = is_ascii (String c a) && is_ascii b).
  cbn [is_ascii]. now rewrite IH, andb_assoc.
Qed.

Lemma is_ascii_substring (n : nat) (s : string) :
  is_ascii s = true -> is_ascii (String.substring 0 n s) = true.
Proof.
  revert s. induction n as [|n IH]; intros s H; destruct s as [|c s]; try reflexivity.
  cbn [is_ascii] in H. apply andb_true_iff in H as [Hc Hs].
  cbn [String.substring is_ascii]. now rewrite Hc, IH.
Qed.

Lemma substring_all (n : nat) (s : string) :
  (String.length s <= n)%nat -> String.substring 0 n s = s.
Proof.
  revert s. induction n as [|n IH]; intros s H; destruct s as [|c s]; try reflexivity.
  - cbn in H. lia.
  - cbn [String.substring]. f_equal. apply IH. cbn in H. lia.
Qed.

(** X25. The label shown for a group id is the name of the first group in
    the directory with that id; for an id of 7-bit characters that is not in
    the directory it is the first 15 characters of the id followed by
    "...", at most 18 characters, and the id itself followed by "..." when
    the id has at most 15. *)
Theorem getGroupName_label (availableGroups : list GroupRecord) (i : string) :
  (forall pre g post,
     availableGroups = pre ++ g :: post -> id g = i ->
     (forall h, h ∈ pre -> id h <> i) ->
     getGroupName availableGroups i = name g)
  /\ (is_ascii i = true ->
      (forall g, g ∈ availableGroups -> id g <> i) ->
      getGroupName availableGroups i = String.substring 0 15 i +:+ "..."
      /\ (String.length (getGroupName availableGroups i) <= 18)%nat
      /\ is_ascii (getGroupName availableGroups i) = true
      /\ ((String.length i <= 15)%nat -> getGroupName availableGroups i = i +:+ "..."))
  /\ getGroupName [mkGroup "120363041234567890@g.us" "Family"] "120363049999999999@g.us"
     = "120363049999999..."
  /\ getGroupName [mkGroup "120363041234567890@g.us" "Family"] "120363041234567890@g.us"
     = "Family".
Proof.
  unfold getGroupName. split; [|split; [|split; reflexivity]].
  - intros pre g post -> Hg Hpre.
    induction pre as [|h pre IH]; cbn.
    + rewrite Hg, String.eqb_refl. reflexivity.
    + destruct (String.eqb_spec (id h) i) as [Heq|_].
      * exfalso. apply (Hpre h); [now left|exact Heq].
      * apply IH. intros h' Hh'. apply Hpre. now right.
  - intros Hascii Hnone.
    assert (Hf : find (fun g => String.eqb (id g) i) availableGroups = None).
    { induction availableGroups as [|h l IH]; [reflexivity|]. cbn.
      destruct (String.eqb_spec (id h) i) as [Heq|_].
      - exfalso. apply (Hnone h); [now left|exact Heq].
      - apply IH. intros g Hg. apply Hnone. now right. }
    rewrite Hf. split; [reflexivity|]. split; [|split].
    + rewrite append_length. pose proof (substring_length 15 i). cbn. lia.
    + rewrite is_ascii_append, (is_ascii_substring 15 i Hascii). reflexivity.
    + intros Hlen. now rewrite substring_all.
Qed.

Lemma getGroupName_label_witness :
  getGroupName [mkGroup "1@g.us" "Family"] "120363000000000001@g.us"
  = String.substring 0 15 "120363000000000001@g.us" +:+ "...".
Proof.
  refine (proj1 (proj1 (proj2 (getGroupName_label [mkGroup "1@g.us" "Family"]
                                 "120363000000000001@g.us")) eq_refl _)).
  intros g Hg. apply elem_of_cons in Hg as [->|Hg]; [discriminate|].
  now apply elem_of_nil in Hg.
Defined.

End DashboardFacts.

(** ** Temporary files when every send succeeds *)

Section TidyFacts.
Import Js JsString Routing Delivery Trace.

Lemma tidy_refl (w w' : World) :
  timers w' = timers w -> files w' = files w -> tidy w w'.
Proof.
  intros Ht Hf. exists []. rewrite app_nil_r, Hf. auto.
Qed.

Lemma tidy_trans (a b c : World) : tidy a b -> tidy b c -> tidy a c.
Proof.
  intros (e1 & Ht1 & Hf1) (e2 & Ht2 & Hf2). exists (e1 ++ e2).
  split; [now rewrite Ht2, Ht1, app_assoc|].
  intros p Hp. rewrite fmap_app in Hp. apply not_elem_of_app in Hp as [Hp1 Hp2].
  now rewrite Hf2, Hf1.
Qed.

Lemma deliver_tidy env msg type targetId w :
  native_ok env ->
  exists w',
    deliver env msg type targetId w = (Returns tt, w')
    /\ attempted w' = attempted w
    /\ tidy w w'.
Proof.
  intros (media & m & ext & Hd & Hm & He & Hwr & Hw & Hs).
  unfold deliver, native_upload, try_catch, emit, log, call, lift, modify, gets, throw,
    ensure_publicDir, writeFileSync, statSync, setTimeout_unlink,
    mbind, M_bind, mret, M_ret.
  cbn. destruct (hasMedia msg); cbn.
  - rewrite Hd. cbn. rewrite Hm, He. cbn.
    destruct (publicDir_exists w); [|destruct (mkdir env) as [[]|e]]; cbn.
    3: { destruct (forward env); cbn; eexists; (split; [reflexivity|]);
         (split; [reflexivity|]); now apply tidy_refl. }
    all: rewrite Hwr; cbn; rewrite lookup_insert_eq; cbn.
    all: destruct (N.eqb_spec (written env) 0) as [?|_]; [contradiction|].
    all: rewrite Hs; cbn; eexists; (split; [reflexivity|]); (split; [reflexivity|]).
    all: eexists [_]; (split; [reflexivity|]); cbn; intros p Hp.
    all: apply lookup_insert_ne; intros <-; apply Hp; now left.
  - destruct (forward env); cbn; eexists; (split; [reflexivity|]);
      (split; [reflexivity|]); now apply tidy_refl.
Qed.

Lemma targets_loop_tidy oracle chat msg type (ts : list GroupId) w :
  (forall n, native_ok (oracle n)) ->
  exists w',
    for_of ts (fun targetId =>
      if String.eqb targetId (chat_id chat) then mret tt
      else env ← next_attempt oracle ;
           enter_attempt targetId ;;
           deliver env msg type targetId) w = (Returns tt, w')
    /\ tidy w w'.
Proof.
  intros Hall. revert w. induction ts as [|t ts IH]; intros w.
  - exists w. split; [reflexivity|now apply tidy_refl].
  - cbn [for_of]. unfold mbind at 1, M_bind at 1.
    destruct (String.eqb t (chat_id chat)).
    + cbn. apply IH.
    + unfold next_attempt, gets, enter_attempt, modify, mbind, M_bind. cbn.
      match goal with |- context [deliver ?e msg type t ?w0] =>
        destruct (deliver_tidy e msg type t w0 (Hall _)) as (w1 & Hrun1 & _ & Ht1)
      end.
      rewrite Hrun1. destruct (IH w1) as (w' & Hrun & Ht).
      exists w'. split; [exact Hrun|].
      apply tidy_trans with (b := w1); [|exact Ht].
      destruct Ht1 as (extra & He & Hf). exists extra. auto.
Qed.

Lemma deliver_all_tidy oracle chat msg type (rs : list Rule) w :
  (forall n, native_ok (oracle n)) ->
  exists o w', deliver_all oracle chat msg type rs w = (o, w') /\ tidy w w'.
Proof.
  intros Hall. revert w. induction rs as [|r rs IH]; intros w.
  - exists (Returns tt), w. split; [reflexivity|now apply tidy_refl].
  - rewrite deliver_all_cons. destruct (targets_value r) as [ts|].
    + destruct (targets_loop_tidy oracle chat msg type ts w Hall)
        as (w1 & Hrun1 & Ht1).
      rewrite Hrun1. destruct (IH w1) as (o & w' & Hrun & Ht).
      exists o, w'. split; [exact Hrun|]. now apply tidy_trans with (b := w1).
    + do 2 eexists. split; [reflexivity|]. now apply tidy_refl.
Qed.

(** X26. When stage 1 runs to its end at every attempt, the handler leaves
    nothing behind: every temporary file it wrote has a cleanup armed, so
    once the timers have fired the only files left are files that would
    have been there without the message. *)
Theorem nothing_left_when_every_send_succeeds oracle rules getChat msg w :
  (forall n, native_ok (oracle n)) ->
  forall p size,
    files (fire_timers (snd (on_message_create oracle rules getChat msg w))) !! p = Some size ->
    files (fire_timers w) !! p = Some size.
Proof.
  intros Hall.
  assert (Hrun : exists w', on_message_create oracle rules getChat msg w = (Returns tt, w')
                            /\ tidy w w').
  { unfold on_message_create, try_catch, lift, mbind at 1, M_bind at 1.
    destruct getChat as [chat|e].
    2: { unfold log, modify. cbn. eexists. split; [reflexivity|]. now apply tidy_refl. }
    destruct (isGroup chat); cbn [negb].
    2: { unfold mret, M_ret. eexists. split; [reflexivity|]. now apply tidy_refl. }
    destruct (0 <? length (validRules (chat_id chat) rules))%nat.
    2: { unfold log, emit, modify, mbind, M_bind, mret, M_ret. cbn.
         eexists. split; [reflexivity|]. now apply tidy_refl. }
    destruct (Classifier.isMedia _ _).
    2: { unfold log, emit, modify, mbind, M_bind, mret, M_ret.
         destruct (_ && _); destruct (String.eqb (msg_type msg) "chat"); cbn;
           eexists; (split; [reflexivity|]); now apply tidy_refl. }
    unfold log, emit, modify, mbind, M_bind, mret, M_ret.
    destruct (_ && _); cbn;
      match goal with |- context [deliver_all _ _ _ ?ty ?rs ?w0] =>
        destruct (deliver_all_tidy oracle chat msg ty rs w0 Hall) as (o & w' & Hrun & Ht)
      end;
      rewrite Hrun; destruct o as [[]|e]; cbn; eexists; (split; [reflexivity|]);
      destruct Ht as (extra & He & Hf); exists extra; auto. }
  destruct Hrun as (w' & -> & extra & Ht & Hf). cbn [snd].
  intros p size. unfold fire_timers. cbn [files]. rewrite Ht.
  destruct (decide (p ∈ (snd <$> timers w ++ extra))) as [Hin|Hn].
  - rewrite fire_timers_removes by assumption. discriminate.
  - rewrite fire_timers_keeps by assumption.
    rewrite fmap_app in Hn. apply not_elem_of_app in Hn as [Hn1 Hn2].
    rewrite fire_timers_keeps by assumption. now rewrite Hf.
Qed.

Lemma nothing_left_when_every_send_succeeds_witness :
  files (fire_timers (snd (on_message_create (fun _ => all_fine)
                             [mkRule "A" ["B"; "C"] None]
                             (Returns (mkChat "A" "Family" true)) photo initial)))
    !! filePath_of (filename_of (now all_fine) "png")
  = None.
Proof.
  destruct (files _ !! _) as [size|] eqn:Hf; [|reflexivity].
  apply (nothing_left_when_every_send_succeeds (fun _ => all_fine)) in Hf.
  - discriminate Hf.
  - intros _. exists (Some png), png, "png". repeat split. discriminate.
Defined.

End TidyFacts.
